(** * vite-plugin-deploy-oss: the concurrent batch transfer engine

    A shallow embedding of the last revision of [src/index.ts]
    ([normalizeObjectKey], [validateOptions], [uploadFileWithRetry],
    [uploadFilesInBatches] and the [closeBundle] handler) together with the
    properties of the engine.

    Conventions of the embedding.
    - JavaScript strings are [string]; file sizes and byte counters are [N]
      (a size reported by [fs.stat] is a non-negative integer); attempt and
      file counters are [nat].
    - The object-store client, the file system and the path library are
      collaborators: they are fields of an environment, never defined here.
    - Console output and the progress spinner are presentation; only the log
      lines of [uploadFileWithRetry] are kept, as effects.
    - [await] is the only place where a JavaScript task can be suspended, so
      concurrency is modelled by which suspended [await] is resumed next. *)

From Stdlib Require Import String Ascii Bool Arith NArith ZArith Lia List.
From Stdlib Require Import Permutation Sorted.
Import ListNotations.

Local Open Scope string_scope.
Local Open Scope list_scope.
Local Open Scope nat_scope.

(** ** Strings and object keys *)

Module Key.

Definition isSlash (c : ascii) : bool := Ascii.eqb c "/"%char.

(** [s.replace(/\/{2,}/g, '/')]: every maximal run of two or more
    slashes becomes one slash. *)
Fixpoint collapseSlashes (s : string) : string :=
  match s with
  | EmptyString => EmptyString
  | String c rest =>
      if isSlash c then
        match rest with
        | EmptyString => String c EmptyString
        | String c' _ =>
            if isSlash c' then collapseSlashes rest
            else String c (collapseSlashes rest)
        end
      else String c (collapseSlashes rest)
  end.

(** [s.replace(/^\/+/, '')]: the leading slashes are removed. *)
Fixpoint stripLeadingSlashes (s : string) : string :=
  match s with
  | EmptyString => EmptyString
  | String c rest => if isSlash c then stripLeadingSlashes rest else s
  end.

Definition startsWithSlash (s : string) : bool :=
  match s with
  | EmptyString => false
  | String c _ => isSlash c
  end.

Fixpoint hasDoubledSlash (s : string) : bool :=
  match s with
  | EmptyString => false
  | String c rest => (isSlash c && startsWithSlash rest) || hasDoubledSlash rest
  end.

(** The path library: [normalizePath] of vite and [resolve] of
    node:path. Its code is not part of the repository. *)
Record PathLib : Type := {
  normalizePath : string -> string;
  resolve : string -> string -> string
}.

(** The one law of [normalizePath] that the key of an object depends on.
    [normalizePath] is [path.posix.normalize] behind a conversion of
    backslashes, and [path.posix.normalize] takes sequential separators
    for one. *)
Definition mergesSeparators (P : PathLib) : Prop :=
  forall s, normalizePath P (collapseSlashes s) = normalizePath P s.

(** A path library that does nothing but merge separators. *)
Definition separatorsOnly : PathLib :=
  {| normalizePath := collapseSlashes;
     resolve := fun dir f => (dir ++ "/" ++ f)%string |}.

(** [normalizeObjectKey(targetDir, relativeFilePath)]. *)
Definition normalizeObjectKey (P : PathLib) (targetDir relativeFilePath : string) : string :=
  stripLeadingSlashes
    (collapseSlashes
       (normalizePath P (targetDir ++ "/" ++ relativeFilePath)%string)).

End Key.


(** ** Data model *)

(** The errors the engine creates or receives. *)
Inductive Error : Type :=
| ClientError (message : string)          (* rejected by the object-store client *)
| StatusError (status : Z)                (* `Upload failed with status: ${status}` *)
| FsError (message : string)              (* rejected by the file system *)
| MaxRetriesExceeded                      (* 'Max retries exceeded' *)
| FailedToUpload (failedCount total : nat). (* `Failed to upload ${failedCount} of ${total} files` *)

(** What an awaited call of a collaborator yields: a value, or a throw. *)
Inductive Outcome (A : Type) : Type :=
| Returned (a : A)
| Thrown (e : Error).
Arguments Returned {A} a.
Arguments Thrown {A} e.

Module UploadTask.
Record t : Type := { filePath : string; name : string; size : N }.
End UploadTask.

Module UploadResult.
Record t : Type := {
  success : bool;
  file : string;
  name : string;
  size : N;
  retries : nat;
  error : option Error
}.
End UploadResult.

(** The plugin options the engine reads, after the defaults are applied.
    [retryTimes] and [concurrency] are naturals: [validateOptions] refuses
    non-integers and values below 1, and a negative value behaves as 0 in
    every place the engine reads them. An integer [multipartThreshold]
    stands for any threshold with the same ceiling, since sizes are
    integers. *)
Record Options : Type := {
  accessKeyId : string;
  accessKeySecret : string;
  region : string;
  bucket : string;
  uploadDir : string;
  overwrite : bool;
  autoDelete : bool;
  open : bool;
  noCache : bool;
  failOnError : bool;
  concurrency : nat;
  retryTimes : nat;
  multipartThreshold : Z
}.

Record Headers : Type := {
  x_oss_storage_class : string;
  x_oss_object_acl : string;
  Cache_Control : string;
  x_oss_forbid_overwrite : string
}.

(** A call of the object-store client, with the options it is given. *)
Inductive Request : Type :=
| put (name filePath : string) (timeout : N) (headers : Headers)
| multipartUpload (name filePath : string) (timeout partSize : N) (parallel : nat)
    (headers : Headers).

(** The collaborators. [client req k] is what the client answers to the
    [k]-th attempt at [req]: a status code, or a throw. *)
Record Env : Type := {
  paths : Key.PathLib;
  client : Request -> nat -> Outcome Z;
  stat : string -> Outcome N;
  unlink : string -> Outcome unit;
  deleteEmpty : string -> Outcome unit
}.

Inductive LogLine : Type :=
| DeleteLocalFailed (filePath : string)
| UploadGaveUp (filePath : string) (e : Error)
| UploadRetrying (filePath : string) (attempt maxRetries : nat).

(** What [uploadFileWithRetry] does to the outside, in order. *)
Inductive Effect : Type :=
| Call (req : Request)
| Unlink (filePath : string)
| Sleep (ms : nat)
| ConsoleLog (line : LogLine)
| ConsoleWarn (line : LogLine).

(** A computation that performs effects and returns a value. *)
Definition M (A : Type) : Type := (list Effect * A)%type.

Definition ret {A} (a : A) : M A := ([], a).

Definition bind {A B} (m : M A) (k : A -> M B) : M B :=
  let (es, a) := m in let (es', b) := k a in (es ++ es', b).

Definition perform (e : Effect) : M unit := ([e], tt).

Definition effects {A} (m : M A) : list Effect := fst m.
Definition value {A} (m : M A) : A := snd m.

Declare Scope effect_scope.
Delimit Scope effect_scope with eff.
Notation "x <- m ;; k" := (bind m (fun x => k))
  (at level 61, m at next level, right associativity) : effect_scope.
Notation "m ;; k" := (bind m (fun _ => k))
  (at level 61, right associativity) : effect_scope.

(** ** validateOptions *)

(** [!s] for a string option: unset or empty. *)
Definition missing (s : string) : bool :=
  match s with EmptyString => true | _ => false end.

Definition validateOptions (o : Options) : list string :=
  (if missing (accessKeyId o) then ["accessKeyId is required"] else []) ++
  (if missing (accessKeySecret o) then ["accessKeySecret is required"] else []) ++
  (if missing (bucket o) then ["bucket is required"] else []) ++
  (if missing (region o) then ["region is required"] else []) ++
  (if missing (uploadDir o) then ["uploadDir is required"] else []) ++
  (if (retryTimes o <? 1)%nat then ["retryTimes must be >= 1"] else []) ++
  (if (concurrency o <? 1)%nat then ["concurrency must be >= 1"] else []) ++
  (if (multipartThreshold o <=? 0)%Z then ["multipartThreshold must be > 0"] else []).

(** ** uploadFileWithRetry *)

(** [task.size >= multipartThreshold]. *)
Definition shouldUseMultipart (size : N) (threshold : Z) : bool :=
  (threshold <=? Z.of_N size)%Z.

Section Retry.
Variable opts : Options.
Variable env : Env.

Local Open Scope effect_scope.

Definition headers : Headers :=
  {| x_oss_storage_class := "Standard";
     x_oss_object_acl := "default";
     Cache_Control :=
       if noCache opts then "no-cache" else "public, max-age=86400, immutable";
     x_oss_forbid_overwrite := if overwrite opts then "false" else "true" |}.

(** The client call of one attempt. *)
Definition request (task : UploadTask.t) : Request :=
  if shouldUseMultipart (UploadTask.size task) (multipartThreshold opts) then
    multipartUpload (UploadTask.name task) (UploadTask.filePath task)
      600000 (1024 * 1024) (Nat.max 1 (Nat.min (concurrency opts) 4)) headers
  else
    put (UploadTask.name task) (UploadTask.filePath task) 600000 headers.

(** The [try] block of one attempt: it returns the result of the upload,
    or throws what the [catch] block receives. *)
Definition tryUpload (task : UploadTask.t) (attempt : nat) : M (Outcome UploadResult.t) :=
  perform (Call (request task)) ;;
  match client env (request task) attempt with
  | Thrown e => ret (Thrown e)
  | Returned status =>
      if (status =? 200)%Z then
        (if autoDelete opts then
           perform (Unlink (UploadTask.filePath task)) ;;
           match unlink env (UploadTask.filePath task) with
           | Returned _ => ret tt
           | Thrown _ =>
               perform (ConsoleWarn (DeleteLocalFailed (UploadTask.filePath task)))
           end
         else ret tt) ;;
        ret (Returned
               {| UploadResult.success := true;
                  UploadResult.file := UploadTask.filePath task;
                  UploadResult.name := UploadTask.name task;
                  UploadResult.size := UploadTask.size task;
                  UploadResult.retries := attempt - 1;
                  UploadResult.error := None |})
      else ret (Thrown (StatusError status))
  end.

Definition logUnlessSilent (silentLogs : bool) (line : LogLine) : M unit :=
  if silentLogs then ret tt else perform (ConsoleLog line).

(** The [for] loop from [attempt] on; [remaining] is the number of
    values of the loop variable still to come,
    [maxRetries + 1 - attempt]. *)
Fixpoint attemptsFrom (task : UploadTask.t) (silentLogs : bool) (maxRetries : nat)
    (remaining attempt : nat) : M UploadResult.t :=
  match remaining with
  | 0 =>
      ret {| UploadResult.success := false;
             UploadResult.file := UploadTask.filePath task;
             UploadResult.name := UploadTask.name task;
             UploadResult.size := UploadTask.size task;
             UploadResult.retries := maxRetries;
             UploadResult.error := Some MaxRetriesExceeded |}
  | S remaining' =>
      r <- tryUpload task attempt ;;
      match r with
      | Returned result => ret result
      | Thrown e =>
          if (attempt =? maxRetries)%nat then
            logUnlessSilent silentLogs (UploadGaveUp (UploadTask.filePath task) e) ;;
            ret {| UploadResult.success := false;
                   UploadResult.file := UploadTask.filePath task;
                   UploadResult.name := UploadTask.name task;
                   UploadResult.size := UploadTask.size task;
                   UploadResult.retries := attempt - 1;
                   UploadResult.error := Some e |}
          else
            logUnlessSilent silentLogs
              (UploadRetrying (UploadTask.filePath task) attempt maxRetries) ;;
            perform (Sleep (1000 * attempt)) ;;
            attemptsFrom task silentLogs maxRetries remaining' (S attempt)
      end
  end.

Definition uploadFileWithRetry (task : UploadTask.t) (silentLogs : bool)
    (maxRetries : nat) : M UploadResult.t :=
  attemptsFrom task silentLogs maxRetries maxRetries 1.

End Retry.

(** ** uploadFilesInBatches *)

(** One element of [taskCandidates]: [{ task }] after a successful
    [stat], [{ task: null, error, filePath, name }] after a failed one. *)
Inductive Candidate : Type :=
| WithTask (task : UploadTask.t)
| WithoutTask (error : Error) (filePath name : string).

(** A worker of the pool is suspended at its [await], or has returned. *)
Inductive Worker : Type :=
| Awaiting (index : nat)
| Exited.

(** The calls that leave the engine and their settlements, in order. *)
Inductive Event : Type :=
| StatStart (filePath : string)
| StatSettle (filePath : string)
| UploadStart (index : nat) (task : UploadTask.t)
| UploadSettle (index : nat).

(** The variables of [uploadFilesInBatches] that change during a run,
    the workers it spawned and the events so far. *)
Record State : Type := {
  results : list UploadResult.t;
  tasks : list UploadTask.t;
  completed : nat;
  failed : nat;
  uploadedBytes : N;
  retries : nat;
  activeFiles : list string;
  currentIndex : nat;
  workers : list Worker;
  trace : list Event
}.

(** Which pending operation settles next is not decided by the engine: a
    schedule gives, for every step, a position among the pending ones
    (taken modulo their number). *)
Definition Schedule : Type := nat -> nat.

Fixpoint removeNth {A} (k : nat) (l : list A) : list A :=
  match l, k with
  | [], _ => []
  | _ :: rest, 0 => rest
  | x :: rest, S k' => x :: removeNth k' rest
  end.

Definition choose {A} (sched : Schedule) (step : nat) (first : A) (pending : list A) : A :=
  nth (sched step mod length pending) pending first.

(** The order in which operations that were all started settle. *)
Fixpoint settleOrder {A} (sched : Schedule) (step fuel : nat) (pending : list A) : list A :=
  match fuel, pending with
  | S fuel', first :: _ =>
      choose sched step first pending ::
      settleOrder sched (S step) fuel' (removeNth (sched step mod length pending) pending)
  | _, _ => []
  end.

(** [activeFiles] is a [Set<string>]. *)
Definition setAdd (x : string) (s : list string) : list string :=
  if existsb (String.eqb x) s then s else s ++ [x].

Definition setDelete (x : string) (s : list string) : list string :=
  filter (fun y => negb (String.eqb x y)) s.

Fixpoint setWorker (w : nat) (wk : Worker) (ws : list Worker) : list Worker :=
  match ws, w with
  | [], _ => []
  | _ :: rest, 0 => wk :: rest
  | x :: rest, S w' => x :: setWorker w' wk rest
  end.

(** The numbers of the workers suspended at their [await]. *)
Definition inflight (ws : list Worker) : list nat :=
  filter (fun w => match nth w ws Exited with Awaiting _ => true | Exited => false end)
         (seq 0 (length ws)).

Section Batch.
Variable opts : Options.
Variable env : Env.
Variable outDir : string.
Variable useInteractiveOutput : bool.

Definition silentLogs : bool := useInteractiveOutput.

(** The callback of [files.map], up to its [await stat(filePath)]. *)
Definition filePathOf (relativeFilePath : string) : string :=
  Key.normalizePath (paths env) (Key.resolve (paths env) outDir relativeFilePath).

(** The same callback, once [stat] has settled. *)
Definition candidateOf (relativeFilePath : string) : Candidate :=
  let filePath := filePathOf relativeFilePath in
  let name := Key.normalizeObjectKey (paths env) (uploadDir opts) relativeFilePath in
  match stat env filePath with
  | Returned size =>
      WithTask {| UploadTask.filePath := filePath;
                  UploadTask.name := name;
                  UploadTask.size := size |}
  | Thrown error => WithoutTask error filePath name
  end.

(** [await Promise.all(files.map(...))]: every callback runs to its
    [await] when [map] calls it, so every [stat] is started before any
    settles; the array keeps the order of [files] whatever the order of
    settlement. *)
Definition statPhase (statOrder : Schedule) (files : list string) : list Event :=
  let started := map filePathOf files in
  map StatStart started ++
  map StatSettle (settleOrder statOrder 0 (length started) started).

Definition initial (statOrder : Schedule) (files : list string) : State :=
  {| results := []; tasks := []; completed := 0; failed := 0;
     uploadedBytes := 0; retries := 0; activeFiles := []; currentIndex := 0;
     workers := []; trace := statPhase statOrder files |}.

(** The body of [for (const candidate of taskCandidates)]. *)
Definition sortCandidate (st : State) (candidate : Candidate) : State :=
  match candidate with
  | WithTask task =>
      {| results := results st; tasks := tasks st ++ [task];
         completed := completed st; failed := failed st;
         uploadedBytes := uploadedBytes st; retries := retries st;
         activeFiles := activeFiles st; currentIndex := currentIndex st;
         workers := workers st; trace := trace st |}
  | WithoutTask error filePath name =>
      {| results :=
           results st ++
           [{| UploadResult.success := false;
               UploadResult.file := filePath;
               UploadResult.name := name;
               UploadResult.size := 0;
               UploadResult.retries := 0;
               UploadResult.error := Some error |}];
         tasks := tasks st;
         completed := S (completed st); failed := S (failed st);
         uploadedBytes := uploadedBytes st; retries := retries st;
         activeFiles := activeFiles st; currentIndex := currentIndex st;
         workers := workers st; trace := trace st |}
  end.

(** [Math.max(1, Math.min(windowSize, tasks.length || 1))]. *)
Definition safeWindowSize (windowSize taskCount : nat) : nat :=
  Nat.max 1 (Nat.min windowSize (if (taskCount =? 0)%nat then 1 else taskCount)).

(** The head of the loop of [worker], from [currentIndex++] to the
    [await]: the worker returns, or calls [uploadFileWithRetry] and is
    suspended. *)
Definition claim (st : State) : State * Worker :=
  let index := currentIndex st in
  match nth_error (tasks st) index with
  | None =>
      ({| results := results st; tasks := tasks st;
          completed := completed st; failed := failed st;
          uploadedBytes := uploadedBytes st; retries := retries st;
          activeFiles := activeFiles st; currentIndex := S index;
          workers := workers st; trace := trace st |},
       Exited)
  | Some task =>
      ({| results := results st; tasks := tasks st;
          completed := completed st; failed := failed st;
          uploadedBytes := uploadedBytes st; retries := retries st;
          activeFiles := setAdd (UploadTask.name task) (activeFiles st);
          currentIndex := S index;
          workers := workers st;
          trace := trace st ++ [UploadStart index task] |},
       Awaiting index)
  end.

(** [worker()] called by [Array.from]: a new worker runs to its first
    [await]. *)
Definition spawn (st : State) : State :=
  let (st', wk) := claim st in
  {| results := results st'; tasks := tasks st';
     completed := completed st'; failed := failed st';
     uploadedBytes := uploadedBytes st'; retries := retries st';
     activeFiles := activeFiles st'; currentIndex := currentIndex st';
     workers := workers st' ++ [wk]; trace := trace st' |}.

(** The rest of the loop body, from the settled [await] to the end,
    for the result of task [index]. *)
Definition record (index : nat) (task : UploadTask.t) (result : UploadResult.t)
    (st : State) : State :=
  {| results := results st ++ [result];
     tasks := tasks st;
     completed := S (completed st);
     failed := if UploadResult.success result then failed st else S (failed st);
     uploadedBytes :=
       if UploadResult.success result
       then (uploadedBytes st + UploadResult.size result)%N
       else uploadedBytes st;
     retries := retries st + UploadResult.retries result;
     activeFiles := setDelete (UploadTask.name task) (activeFiles st);
     currentIndex := currentIndex st;
     workers := workers st;
     trace := trace st ++ [UploadSettle index] |}.

(** The upload awaited by worker [w] settles: the worker records the
    result and goes round its loop to the next [await] or to its
    return. [None] when worker [w] is not suspended. *)
Definition resume (w : nat) (st : State) : option State :=
  match nth_error (workers st) w with
  | Some (Awaiting index) =>
      match nth_error (tasks st) index with
      | Some task =>
          let result := value (uploadFileWithRetry opts env task silentLogs (retryTimes opts)) in
          let (st', wk) := claim (record index task result st) in
          Some {| results := results st'; tasks := tasks st';
                  completed := completed st'; failed := failed st';
                  uploadedBytes := uploadedBytes st'; retries := retries st';
                  activeFiles := activeFiles st'; currentIndex := currentIndex st';
                  workers := setWorker w wk (workers st'); trace := trace st' |}
      | None => None
      end
  | _ => None
  end.

(** [await Promise.all(workers)]: uploads settle one after the other, in
    the order of the schedule, until no worker is suspended. [fuel]
    bounds the number of settlements. *)
Fixpoint drain (uploadOrder : Schedule) (fuel step : nat) (st : State) : State :=
  match fuel, inflight (workers st) with
  | S fuel', first :: _ =>
      match resume (choose uploadOrder step first (inflight (workers st))) st with
      | Some st' => drain uploadOrder fuel' (S step) st'
      | None => st
      end
  | _, _ => st
  end.

(** The state when the [for] loop over the candidates is over. *)
Definition sorted (statOrder : Schedule) (files : list string) : State :=
  fold_left sortCandidate (map candidateOf files) (initial statOrder files).

(** The state when every worker has been called. *)
Definition spawned (statOrder : Schedule) (files : list string) (windowSize : nat) : State :=
  let st := sorted statOrder files in
  Nat.iter (safeWindowSize windowSize (length (tasks st))) spawn st.

(** The state when [Promise.all] resolves. *)
Definition finished (statOrder uploadOrder : Schedule) (files : list string)
    (windowSize : nat) : State :=
  let st := spawned statOrder files windowSize in
  drain uploadOrder (length (tasks st)) 0 st.

Definition uploadFilesInBatches (statOrder uploadOrder : Schedule) (files : list string)
    (windowSize : nat) : list UploadResult.t :=
  results (finished statOrder uploadOrder files windowSize).

(** The state of the run after [k] of its steps: the iterations of the
    loop over the candidates, then the settlements of the uploads. *)
Definition stateAfter (statOrder uploadOrder : Schedule) (files : list string)
    (windowSize : nat) (k : nat) : State :=
  if (k <=? length files)%nat then
    fold_left sortCandidate (firstn k (map candidateOf files)) (initial statOrder files)
  else
    drain uploadOrder (k - length files) 0 (spawned statOrder files windowSize).

End Batch.

(** ** The closeBundle handler *)

Record Summary : Type := {
  allResults : list UploadResult.t;
  successCount : nat;
  failedCount : nat;
  uploadedTotal : N;
  retryCount : nat;
  warnings : list string
}.

Inductive HandlerResult : Type :=
| NotStarted
| NoFiles
| Completed (summary : Summary) (thrown : option Error).

(** The plugin variables the handler reads. *)
Record Plugin : Type := {
  upload : bool;
  buildFailed : bool;
  resolvedConfig : bool;
  outDir : string;
  useInteractiveOutput : bool
}.

(** The [config] hook decides [upload]. *)
Definition configHook (opts : Options) (buildFailed : bool) : bool :=
  if negb (open opts) || buildFailed then false
  else match validateOptions opts with
       | [] => true
       | _ :: _ => false
       end.

(** The two [reduce] calls of the handler over the results. *)
Definition sumSizes (rs : list UploadResult.t) : N :=
  fold_left (fun sum result =>
               if UploadResult.success result then (sum + UploadResult.size result)%N else sum)
            rs 0%N.

Definition sumRetries (rs : list UploadResult.t) : nat :=
  fold_left (fun sum result => sum + UploadResult.retries result) rs 0.

Definition closeBundle (opts : Options) (env : Env) (plugin : Plugin)
    (statOrder uploadOrder : Schedule) (files : list string) : HandlerResult :=
  if negb (open opts) || negb (upload plugin) || buildFailed plugin
     || negb (resolvedConfig plugin)
  then NotStarted
  else if (length files =? 0)%nat then NoFiles
  else
    let results :=
      uploadFilesInBatches opts env (outDir plugin) (useInteractiveOutput plugin)
        statOrder uploadOrder files (concurrency opts) in
    let successCount := length (filter UploadResult.success results) in
    let failedCount := length results - successCount in
    let summary :=
      {| allResults := results;
         successCount := successCount;
         failedCount := failedCount;
         uploadedTotal := sumSizes results;
         retryCount := sumRetries results;
         warnings :=
           match deleteEmpty env (outDir plugin) with
           | Returned _ => []
           | Thrown _ => ["deleteEmpty failed"]
           end |} in
    let thrownInTry :=
      if (0 <? failedCount)%nat && failOnError opts
      then Some (FailedToUpload failedCount (length results))
      else None in
    Completed summary
      match thrownInTry with
      | Some error => if failOnError opts then Some error else None
      | None => None
      end.

(** ** Observations on effects and traces *)

(** The effects without the console lines. *)
Definition withoutLogs (es : list Effect) : list Effect :=
  filter (fun e => match e with ConsoleLog _ | ConsoleWarn _ => false | _ => true end) es.

(** The backoff delays, in order. *)
Definition delays (es : list Effect) : list nat :=
  flat_map (fun e => match e with Sleep ms => [ms] | _ => [] end) es.

(** The client calls, in order. *)
Definition calls (es : list Effect) : list Request :=
  flat_map (fun e => match e with Call req => [req] | _ => [] end) es.

(** The result of a task given up at attempt [attempt], and of a task
    uploaded at attempt [attempt]. *)
Definition gaveUp (task : UploadTask.t) (attempt : nat) (e : Error) : UploadResult.t :=
  {| UploadResult.success := false;
     UploadResult.file := UploadTask.filePath task;
     UploadResult.name := UploadTask.name task;
     UploadResult.size := UploadTask.size task;
     UploadResult.retries := attempt - 1;
     UploadResult.error := Some e |}.

Definition uploaded (task : UploadTask.t) (attempt : nat) : UploadResult.t :=
  {| UploadResult.success := true;
     UploadResult.file := UploadTask.filePath task;
     UploadResult.name := UploadTask.name task;
     UploadResult.size := UploadTask.size task;
     UploadResult.retries := attempt - 1;
     UploadResult.error := None |}.

(** The result recorded for a candidate whose [stat] failed. *)
Definition statFailed (error : Error) (filePath name : string) : UploadResult.t :=
  {| UploadResult.success := false;
     UploadResult.file := filePath;
     UploadResult.name := name;
     UploadResult.size := 0;
     UploadResult.retries := 0;
     UploadResult.error := Some error |}.

(** The indices of the uploads that have settled, in order of settlement. *)
Definition settled (tr : list Event) : list nat :=
  flat_map (fun ev => match ev with UploadSettle i => [i] | _ => [] end) tr.

(** The tasks handed to [uploadFileWithRetry], in order. *)
Definition handedOver (tr : list Event) : list UploadTask.t :=
  flat_map (fun ev => match ev with UploadStart _ task => [task] | _ => [] end) tr.

(** The indices of the uploads the workers are waiting for. *)
Definition awaited (ws : list Worker) : list nat :=
  flat_map (fun w => match w with Awaiting i => [i] | Exited => [] end) ws.

Definition isUploadEvent (ev : Event) : bool :=
  match ev with
  | UploadStart _ _ | UploadSettle _ => true
  | StatStart _ | StatSettle _ => false
  end.

(** The largest number of [stat] calls started and not yet settled, over
    the prefixes of a trace that begins with [pending] of them. *)
Fixpoint peakStats (pending : nat) (tr : list Event) : nat :=
  match tr with
  | [] => pending
  | StatStart _ :: rest => Nat.max pending (peakStats (S pending) rest)
  | StatSettle _ :: rest => Nat.max pending (peakStats (pending - 1) rest)
  | _ :: rest => peakStats pending rest
  end.

Section Expected.
Variable opts : Options.
Variable env : Env.
Variable outDir : string.
Variable useInteractiveOutput : bool.

(** The result of the upload of a task. *)
Definition uploadResult (task : UploadTask.t) : UploadResult.t :=
  value (uploadFileWithRetry opts env task (silentLogs useInteractiveOutput) (retryTimes opts)).

(** The one result of a candidate. *)
Definition resultOf (candidate : Candidate) : UploadResult.t :=
  match candidate with
  | WithTask task => uploadResult task
  | WithoutTask error filePath name => statFailed error filePath name
  end.

(** The client calls of a run: those of the uploads that were started. *)
Definition clientCalls (tr : list Event) : list Request :=
  flat_map
    (fun task =>
       calls (effects (uploadFileWithRetry opts env task
                         (silentLogs useInteractiveOutput) (retryTimes opts))))
    (handedOver tr).

Definition tasksOf (candidates : list Candidate) : list UploadTask.t :=
  flat_map (fun c => match c with WithTask task => [task] | WithoutTask _ _ _ => [] end)
           candidates.

Definition statFailures (candidates : list Candidate) : list UploadResult.t :=
  flat_map (fun c => match c with
                     | WithTask _ => []
                     | WithoutTask error filePath name => [statFailed error filePath name]
                     end)
           candidates.

(** The results of the uploads of the given indices of a task list. *)
Definition resultsAt (T : list UploadTask.t) (indices : list nat) : list UploadResult.t :=
  flat_map (fun i => match nth_error T i with
                     | Some task => [uploadResult task]
                     | None => []
                     end)
           indices.

(** The invariant of the pool over the task list [T], the results [P]
    recorded before the pool started and the trace [tr0] up to then. *)
Record PoolInv (T : list UploadTask.t) (P : list UploadResult.t) (tr0 : list Event)
    (st : State) : Prop := {
  inv_tasks : tasks st = T;
  inv_results : results st = P ++ resultsAt T (settled (trace st));
  inv_count :
    forall i,
      count_occ Nat.eq_dec (settled (trace st)) i +
      count_occ Nat.eq_dec (awaited (workers st)) i =
      if i <? Nat.min (currentIndex st) (length T) then 1 else 0;
  inv_exited : In Exited (workers st) -> length T <= currentIndex st;
  inv_completed : completed st = length P + length (settled (trace st));
  inv_bytes : uploadedBytes st = sumSizes (results st);
  inv_trace :
    exists ups,
      trace st = tr0 ++ ups /\ forallb isUploadEvent ups = true
      /\ incl (handedOver ups) T
}.

End Expected.

(** The same options with another fail-on-error policy, the same
    collaborators with another outcome of the clean-up calls. *)
Definition withFailOnError (b : bool) (o : Options) : Options :=
  {| accessKeyId := accessKeyId o; accessKeySecret := accessKeySecret o;
     region := region o; bucket := bucket o; uploadDir := uploadDir o;
     overwrite := overwrite o; autoDelete := autoDelete o; open := open o;
     noCache := noCache o; failOnError := b; concurrency := concurrency o;
     retryTimes := retryTimes o; multipartThreshold := multipartThreshold o |}.

Definition withCleanup (unlink' deleteEmpty' : string -> Outcome unit) (env : Env) : Env :=
  {| paths := paths env; client := client env; stat := stat env;
     unlink := unlink'; deleteEmpty := deleteEmpty' |}.

(** What the handler collected: the results and the counts of the
    summary; and what it threw. *)
Definition collected (r : HandlerResult)
  : option (list UploadResult.t * (nat * nat * N * nat)) :=
  match r with
  | Completed s _ =>
      Some (allResults s, (successCount s, failedCount s, uploadedTotal s, retryCount s))
  | NotStarted | NoFiles => None
  end.

Definition raised (r : HandlerResult) : option Error :=
  match r with
  | Completed _ thrown => thrown
  | NotStarted | NoFiles => None
  end.

(** ** A concrete build *)

(** A build of five files on which the statements are run: one file
    cannot be read, one upload is refused at every attempt, one large
    file goes through at its second attempt, and no local file can be
    removed. *)
Module Demo.

Definition options : Options :=
  {| accessKeyId := "id"; accessKeySecret := "secret"; region := "oss-cn-hangzhou";
     bucket := "site"; uploadDir := "/H5//zz/"; overwrite := true; autoDelete := true;
     open := true; noCache := false; failOnError := true; concurrency := 2;
     retryTimes := 3; multipartThreshold := 100 |}.

Definition env : Env :=
  {| paths := Key.separatorsOnly;
     client := fun req k =>
       match req with
       | put name _ _ _ =>
           if String.eqb name "H5/zz/bad.js" then Returned 500%Z else Returned 200%Z
       | multipartUpload _ _ _ _ _ _ =>
           if k =? 2 then Returned 200%Z else Thrown (ClientError "ECONNRESET")
       end;
     stat := fun filePath =>
       if String.eqb filePath "/dist/gone.js" then Thrown (FsError "ENOENT")
       else if String.eqb filePath "/dist/big.bin" then Returned 100%N
       else Returned 7%N;
     unlink := fun _ => Thrown (FsError "EPERM");
     deleteEmpty := fun _ => Thrown (FsError "EPERM") |}.

Definition plugin : Plugin :=
  {| upload := configHook options false; buildFailed := false; resolvedConfig := true;
     outDir := "/dist"; useInteractiveOutput := false |}.

Definition files : list string := ["a.js"; "gone.js"; "big.bin"; "bad.js"; "c.js"].

Definition bad : UploadTask.t :=
  {| UploadTask.filePath := "/dist/bad.js"; UploadTask.name := "H5/zz/bad.js";
     UploadTask.size := 7 |}.

Definition big : UploadTask.t :=
  {| UploadTask.filePath := "/dist/big.bin"; UploadTask.name := "H5/zz/big.bin";
     UploadTask.size := 100 |}.

(** Settlement in the order of the calls, and latest call first. *)
Definition inOrder : Schedule := fun _ => 0.
Definition latestFirst : Schedule := fun _ => 1.

End Demo.

(** ** Further observations *)

(** The local files [uploadFileWithRetry] tried to remove, in order. *)
Definition unlinks (es : list Effect) : list string :=
  flat_map (fun e => match e with Unlink filePath => [filePath] | _ => [] end) es.

(** The keys of the uploads the workers are waiting for. *)
Definition awaitedNames (T : list UploadTask.t) (ws : list Worker) : list string :=
  flat_map (fun i => match nth_error T i with
                     | Some task => [UploadTask.name task]
                     | None => []
                     end)
           (awaited ws).

(** The number of uploads started and not yet settled at the end of a
    trace that begins with [pending] of them, and the largest such number
    over the prefixes of the trace. *)
Fixpoint pendingUploads (pending : nat) (tr : list Event) : nat :=
  match tr with
  | [] => pending
  | UploadStart _ _ :: rest => pendingUploads (S pending) rest
  | UploadSettle _ :: rest => pendingUploads (pending - 1) rest
  | _ :: rest => pendingUploads pending rest
  end.

Fixpoint peakUploads (pending : nat) (tr : list Event) : nat :=
  match tr with
  | [] => pending
  | UploadStart _ _ :: rest => Nat.max pending (peakUploads (S pending) rest)
  | UploadSettle _ :: rest => Nat.max pending (peakUploads (pending - 1) rest)
  | _ :: rest => peakUploads pending rest
  end.

(** What the live counters, the set of active files and the trace keep
    besides [PoolInv], over the task list [T]; [n] bounds the number of
    workers. *)
Record PoolInv2 (T : list UploadTask.t) (n : nat) (st : State) : Prop := {
  inv2_failed :
    failed st = length (filter (fun r => negb (UploadResult.success r)) (results st));
  inv2_retries : retries st = sumRetries (results st);
  inv2_handed : handedOver (trace st) = firstn (currentIndex st) T;
  inv2_nodup : NoDup (activeFiles st);
  inv2_incl : incl (activeFiles st) (awaitedNames T (workers st));
  inv2_workers : length (workers st) <= n;
  inv2_pending : pendingUploads 0 (trace st) = length (awaited (workers st));
  inv2_peak : peakUploads 0 (trace st) <= n
}.

(** ** The hooks of the plugin *)

(** A call of a hook by the build tool, with what the hook reads of its
    argument. *)
Inductive Hook : Type :=
| buildEnd (error : bool)
| config (base : string)
| configResolved (root buildOutDir : string).

(** The plugin variables when the plugin is created: [cwd] is the
    directory [resolve('dist')] starts from, [interactive] the value of
    [useInteractiveOutput]. *)
Definition created (P : Key.PathLib) (cwd : string) (interactive : bool) : Plugin :=
  {| upload := false; buildFailed := false; resolvedConfig := false;
     outDir := Key.normalizePath P (Key.resolve P cwd "dist");
     useInteractiveOutput := interactive |}.

(** What a hook does to the plugin variables. *)
Definition callHook (opts : Options) (P : Key.PathLib) (p : Plugin) (h : Hook) : Plugin :=
  match h with
  | buildEnd error =>
      if error then
        {| upload := upload p; buildFailed := true; resolvedConfig := resolvedConfig p;
           outDir := outDir p; useInteractiveOutput := useInteractiveOutput p |}
      else p
  | config _ =>
      if negb (open opts) || buildFailed p then p
      else match validateOptions opts with
           | [] =>
               {| upload := true; buildFailed := buildFailed p;
                  resolvedConfig := resolvedConfig p; outDir := outDir p;
                  useInteractiveOutput := useInteractiveOutput p |}
           | _ :: _ => p
           end
  | configResolved root buildOutDir =>
      {| upload := upload p; buildFailed := buildFailed p; resolvedConfig := true;
         outDir := Key.normalizePath P (Key.resolve P root buildOutDir);
         useInteractiveOutput := useInteractiveOutput p |}
  end.

(** ** trimMiddle *)

(** [text.slice(0, n)] for [n >= 0]. *)
Definition sliceTo (n : nat) (text : string) : string := substring 0 n text.

(** [text.slice(-n)] for [n >= 0]: the last [n] characters, and the whole
    text for [n = 0], as [-0] is [0]. *)
Definition sliceLast (n : nat) (text : string) : string :=
  if n =? 0 then text
  else substring (String.length text - n) n text.

(** [trimMiddle(text, maxLength)], for a [maxLength] that is a natural
    number (the one caller passes 86). *)
Definition trimMiddle (text : string) (maxLength : nat) : string :=
  if String.length text <=? maxLength then text
  else if maxLength <=? 10 then sliceTo maxLength text
  else
    let leftLength := (maxLength - 3) / 2 in
    let rightLength := maxLength - 3 - leftLength in
    (sliceTo leftLength text ++ "..." ++ sliceLast rightLength text)%string.

(** ** updateProgress without a spinner *)

(** [Math.max(1, Math.ceil(totalFiles / 10))]. *)
Definition reportEvery (totalFiles : nat) : nat := Nat.max 1 ((totalFiles + 9) / 10).

(** The variable [lastReportedCompleted] and the progress lines logged so
    far, each given by the value of [completed] it shows. *)
Record Reporter : Type := {
  lastReportedCompleted : Z;
  reported : list nat
}.

Definition reporterStart : Reporter := {| lastReportedCompleted := -1; reported := [] |}.

(** [updateProgress()] when there is no spinner and [completed] has the
    given value. *)
Definition updateProgress (totalFiles : nat) (r : Reporter) (completed : nat) : Reporter :=
  if (Z.of_nat completed =? lastReportedCompleted r)%Z then r
  else if (completed =? totalFiles) || (completed mod reportEvery totalFiles =? 0) then
    {| lastReportedCompleted := Z.of_nat completed;
       reported := reported r ++ [completed] |}
  else r.

Section Lines.
Variable totalFiles : nat.

(** A value of [completed] for which a line is logged. *)
Definition due (v : nat) : Prop := v = totalFiles \/ v mod reportEvery totalFiles = 0.

(** The rank of a value that is due among those that are. *)
Definition rank (v : nat) : nat :=
  if v =? totalFiles then (totalFiles - 1) / reportEvery totalFiles + 1 else v / reportEvery totalFiles.

(** What the reporter keeps from one call to the next. *)
Record Consistent (rep : Reporter) : Prop := {
  rep_sorted : StronglySorted lt (reported rep);
  rep_due : Forall due (reported rep);
  rep_below : forall v, In v (reported rep) -> (Z.of_nat v <= lastReportedCompleted rep)%Z;
  rep_last :
    (lastReportedCompleted rep = -1)%Z
    \/ ((0 <= lastReportedCompleted rep)%Z
        /\ In (Z.to_nat (lastReportedCompleted rep)) (reported rep))
}.

End Lines.

(** ** The pool of the revision before the last *)

(** The functions [uploadFileWithRetry] and [uploadFilesInBatches] of the
    revision before the last one of [src/index.ts]: there is no task
    list, a worker reads [stat] when it uploads a file, and the results
    are stored in an array sized for the files. *)
Local Abbreviation uploadWithRetryOfLastRevision := uploadFileWithRetry.

Module Rev4.

Record UploadResult : Type := {
  success : bool;
  file : string;
  error : option Error
}.

(** The effects of an upload: those of the last revision, and the line
    logged when [stat] fails. *)
Inductive Effect4 : Type :=
| Performed (e : Effect)
| CannotReadFile (filePath : string) (e : Error).

(** [uploadFileWithRetry(client, name, filePath, maxRetries)]. After a
    successful [stat] its loop is the loop of the last revision on the
    task made of the key, the path and the size, with every console line
    logged; its results keep [success], [file] and [error]. *)
Definition uploadFileWithRetry (opts : Options) (env : Env) (name filePath : string)
    (maxRetries : nat) : list Effect4 * UploadResult :=
  match stat env filePath with
  | Thrown e =>
      ([CannotReadFile filePath e],
       {| success := false; file := filePath; error := Some e |})
  | Returned size =>
      let task := {| UploadTask.filePath := filePath;
                     UploadTask.name := name;
                     UploadTask.size := size |} in
      let run := uploadWithRetryOfLastRevision opts env task false maxRetries in
      (map Performed (effects run),
       {| success := UploadResult.success (value run);
          file := filePath;
          error := UploadResult.error (value run) |})
  end.

(** The variables of [uploadFilesInBatches] that change during a run and
    the workers it spawned. [results] is an array that may have holes. *)
Record State : Type := {
  results : list (option UploadResult);
  completed : nat;
  activeFile : string;
  currentIndex : nat;
  workers : list Worker
}.

(** [array[index] = x]: inside the array the element is replaced, beyond
    its end the array grows, with holes up to [index]. *)
Fixpoint store {A} (index : nat) (x : A) (array : list (option A)) : list (option A) :=
  match array, index with
  | [], 0 => [Some x]
  | [], S index' => None :: store index' x []
  | _ :: rest, 0 => Some x :: rest
  | y :: rest, S index' => y :: store index' x rest
  end.

Section Pool.
Variable opts : Options.
Variable env : Env.
Variable outDir : string.
Variable spinner : bool.
Variable files : list string.

(** The path and the key a worker computes for a file. *)
Definition filePathOf (file : string) : string :=
  Key.normalizePath (paths env)
    (Key.resolve (paths env) outDir (Key.normalizePath (paths env) file)).

Definition nameOf (file : string) : string :=
  Key.normalizeObjectKey (paths env) (uploadDir opts) (Key.normalizePath (paths env) file).

(** The result of the upload of a file. *)
Definition resultOf (file : string) : UploadResult :=
  snd (uploadFileWithRetry opts env (nameOf file) (filePathOf file) (retryTimes opts)).

(** [new Array(files.length)]. *)
Definition initial : State :=
  {| results := repeat None (length files); completed := 0; activeFile := "";
     currentIndex := 0; workers := [] |}.

(** [Math.max(1, Math.min(windowSize, totalFiles))]. *)
Definition safeWindowSize (windowSize : nat) : nat :=
  Nat.max 1 (Nat.min windowSize (length files)).

(** The head of the loop of [worker], from [currentIndex++] to the
    [await]. *)
Definition claim (st : State) : State * Worker :=
  let index := currentIndex st in
  match nth_error files index with
  | None =>
      ({| results := results st; completed := completed st; activeFile := activeFile st;
          currentIndex := S index; workers := workers st |},
       Exited)
  | Some file =>
      ({| results := results st; completed := completed st;
          activeFile := if spinner then nameOf file else activeFile st;
          currentIndex := S index; workers := workers st |},
       Awaiting index)
  end.

Definition spawn (st : State) : State :=
  let (st', wk) := claim st in
  {| results := results st'; completed := completed st'; activeFile := activeFile st';
     currentIndex := currentIndex st'; workers := workers st' ++ [wk] |}.

(** The upload awaited by worker [w] settles: the worker stores the
    result at its index and goes round its loop. *)
Definition resume (w : nat) (st : State) : option State :=
  match nth_error (workers st) w with
  | Some (Awaiting index) =>
      match nth_error files index with
      | Some file =>
          let (st', wk) :=
            claim {| results := store index (resultOf file) (results st);
                     completed := S (completed st); activeFile := activeFile st;
                     currentIndex := currentIndex st; workers := workers st |} in
          Some {| results := results st'; completed := completed st';
                  activeFile := activeFile st'; currentIndex := currentIndex st';
                  workers := setWorker w wk (workers st') |}
      | None => None
      end
  | _ => None
  end.

Fixpoint drain (uploadOrder : Schedule) (fuel step : nat) (st : State) : State :=
  match fuel, inflight (workers st) with
  | S fuel', first :: _ =>
      match resume (choose uploadOrder step first (inflight (workers st))) st with
      | Some st' => drain uploadOrder fuel' (S step) st'
      | None => st
      end
  | _, _ => st
  end.

(** The state when [Promise.all] resolves. *)
Definition finished (uploadOrder : Schedule) (windowSize : nat) : State :=
  drain uploadOrder (length files) 0 (Nat.iter (safeWindowSize windowSize) spawn initial).

Definition uploadFilesInBatches (uploadOrder : Schedule) (windowSize : nat)
  : list (option UploadResult) :=
  results (finished uploadOrder windowSize).

(** What the pool keeps from one step to the next. *)
Record PoolInv (st : State) : Prop := {
  inv_length : length (results st) = length files;
  inv_nodup : NoDup (awaited (workers st));
  inv_pending :
    forall i, In i (awaited (workers st)) ->
              i < currentIndex st /\ i < length files /\ nth_error (results st) i = Some None;
  inv_unclaimed :
    forall i, currentIndex st <= i -> i < length files -> nth_error (results st) i = Some None;
  inv_stored :
    forall i file, i < currentIndex st -> ~ In i (awaited (workers st)) ->
                   nth_error files i = Some file ->
                   nth_error (results st) i = Some (Some (resultOf file));
  inv_completed :
    completed st + length (awaited (workers st)) = Nat.min (currentIndex st) (length files);
  inv_exited : In Exited (workers st) -> length files <= currentIndex st
}.

End Pool.

End Rev4.
Module KeyFacts.
Import Key.

Lemma collapse_cons_noslash c s :
  isSlash c = false -> collapseSlashes (String c s) = String c (collapseSlashes s).
Proof. intros H. simpl. rewrite H. reflexivity. Qed.

Lemma collapse_slash_slash c s :
  isSlash c = true -> startsWithSlash s = true ->
  collapseSlashes (String c s) = collapseSlashes s.
Proof.
  intros Hc Hs. destruct s as [|c' s']; [discriminate|].
  simpl in Hs. cbn [collapseSlashes]. rewrite Hc, Hs. reflexivity.
Qed.

Lemma collapse_slash_other c s :
  isSlash c = true -> startsWithSlash s = false ->
  collapseSlashes (String c s) = String c (collapseSlashes s).
Proof.
  intros Hc Hs. destruct s as [|c' s']; cbn [collapseSlashes]; rewrite Hc.
  - reflexivity.
  - simpl in Hs. rewrite Hs. reflexivity.
Qed.

Lemma startsWithSlash_collapse s :
  startsWithSlash (collapseSlashes s) = startsWithSlash s.
Proof.
  induction s as [|c s IH]; [reflexivity|].
  destruct (isSlash c) eqn:Hc.
  - destruct (startsWithSlash s) eqn:Hs.
    + rewrite collapse_slash_slash by assumption. rewrite IH. simpl. now rewrite Hc.
    + rewrite collapse_slash_other by assumption. reflexivity.
  - rewrite collapse_cons_noslash by assumption. reflexivity.
Qed.

Lemma collapse_no_doubled s : hasDoubledSlash (collapseSlashes s) = false.
Proof.
  induction s as [|c s IH]; [reflexivity|].
  destruct (isSlash c) eqn:Hc.
  - destruct (startsWithSlash s) eqn:Hs.
    + rewrite collapse_slash_slash by assumption. exact IH.
    + rewrite collapse_slash_other by assumption.
      cbn [hasDoubledSlash]. rewrite startsWithSlash_collapse, Hs, IH.
      now rewrite andb_false_r.
  - rewrite collapse_cons_noslash by assumption.
    cbn [hasDoubledSlash]. rewrite Hc, IH. reflexivity.
Qed.

Lemma strip_no_leading s : startsWithSlash (stripLeadingSlashes s) = false.
Proof.
  induction s as [|c s IH]; [reflexivity|].
  simpl. destruct (isSlash c) eqn:Hc; [exact IH|]. simpl. exact Hc.
Qed.

Lemma strip_keeps_no_doubled s :
  hasDoubledSlash s = false -> hasDoubledSlash (stripLeadingSlashes s) = false.
Proof.
  induction s as [|c s IH]; [reflexivity|].
  intros H. simpl. destruct (isSlash c) eqn:Hc; [|exact H].
  apply IH. cbn [hasDoubledSlash] in H. apply orb_false_iff in H. tauto.
Qed.

Lemma startsWithSlash_app (p s : string) :
  startsWithSlash (p ++ s) =
  match p with EmptyString => startsWithSlash s | String c _ => isSlash c end.
Proof. destruct p; reflexivity. Qed.

(** Two suffixes that both begin with a slash and collapse to the same
    string still do so behind any prefix. *)
Lemma collapse_app_suffix (p s t : string) :
  startsWithSlash s = true -> startsWithSlash t = true ->
  collapseSlashes s = collapseSlashes t ->
  collapseSlashes (p ++ s) = collapseSlashes (p ++ t).
Proof.
  intros Hs Ht Hst. induction p as [|c p IH]; [exact Hst|].
  change (collapseSlashes (String c (p ++ s)) = collapseSlashes (String c (p ++ t))).
  destruct (isSlash c) eqn:Hc.
  - assert (Hsame : startsWithSlash (p ++ s) = startsWithSlash (p ++ t)).
    { rewrite !startsWithSlash_app. destruct p; congruence. }
    destruct (startsWithSlash (p ++ s)) eqn:Hps.
    + rewrite !collapse_slash_slash by congruence. exact IH.
    + rewrite !collapse_slash_other by congruence. now rewrite IH.
  - rewrite !collapse_cons_noslash by assumption. now rewrite IH.
Qed.

Lemma collapse_idempotent s : collapseSlashes (collapseSlashes s) = collapseSlashes s.
Proof.
  induction s as [|c s IH]; [reflexivity|].
  destruct (isSlash c) eqn:Hc.
  - destruct (startsWithSlash s) eqn:Hs.
    + rewrite collapse_slash_slash by assumption. exact IH.
    + rewrite collapse_slash_other by assumption.
      rewrite collapse_slash_other, IH; auto.
      now rewrite startsWithSlash_collapse.
  - rewrite collapse_cons_noslash by assumption.
    now rewrite collapse_cons_noslash, IH.
Qed.

Lemma separatorsOnly_merges : mergesSeparators separatorsOnly.
Proof. intros s. apply collapse_idempotent. Qed.

End KeyFacts.

(** ** Facts about uploadFileWithRetry *)

Module RetryFacts.

(** Options that pass [validateOptions] have the bounds the engine needs. *)
Lemma validateOptions_bounds o :
  validateOptions o = [] ->
  1 <= retryTimes o /\ 1 <= concurrency o /\ (0 < multipartThreshold o)%Z.
Proof.
  unfold validateOptions. intros H.
  destruct (Nat.ltb_spec (retryTimes o) 1) as [Hr|Hr];
    destruct (Nat.ltb_spec (concurrency o) 1) as [Hc|Hc];
    destruct (Z.leb_spec (multipartThreshold o) 0) as [Ht|Ht];
    try (repeat split; lia);
    exfalso;
    repeat match type of H with
      | _ ++ _ = [] => apply app_eq_nil in H; destruct H as [? H]
      end;
    congruence.
Qed.

Lemma effects_bind {A B} (m : M A) (k : A -> M B) :
  effects (bind m k) = effects m ++ effects (k (value m)).
Proof. destruct m as [es a]. unfold bind, effects, value. simpl. now destruct (k a). Qed.

Lemma value_bind {A B} (m : M A) (k : A -> M B) :
  value (bind m k) = value (k (value m)).
Proof. destruct m as [es a]. unfold bind, effects, value. simpl. now destruct (k a). Qed.

Lemma withoutLogs_app es es' : withoutLogs (es ++ es') = withoutLogs es ++ withoutLogs es'.
Proof. apply filter_app. Qed.

Lemma delays_withoutLogs es : delays (withoutLogs es) = delays es.
Proof.
  induction es as [|e es IH]; [reflexivity|].
  destruct e; simpl; rewrite ?IH; reflexivity.
Qed.

Lemma withoutLogs_logUnlessSilent silent line :
  withoutLogs (effects (logUnlessSilent silent line)) = [].
Proof. now destruct silent. Qed.

Lemma calls_bind {A B} (m : M A) (k : A -> M B) :
  calls (effects (bind m k)) = calls (effects m) ++ calls (effects (k (value m))).
Proof. rewrite effects_bind. apply flat_map_app. Qed.

Lemma calls_logUnlessSilent silent line : calls (effects (logUnlessSilent silent line)) = [].
Proof. now destruct silent. Qed.

Section OneTask.
Variable opts : Options.
Variable env : Env.
Variable task : UploadTask.t.
Variable silent : bool.

Let req := request opts task.

(** A throwing attempt has called the client and done nothing else. *)
Lemma tryUpload_thrown attempt e :
  value (tryUpload opts env task attempt) = Thrown e ->
  effects (tryUpload opts env task attempt) = [Call req].
Proof.
  unfold tryUpload. rewrite value_bind, effects_bind. simpl.
  destruct (client env (request opts task) attempt) as [status|e0]; [|reflexivity].
  destruct (status =? 200)%Z; [|reflexivity].
  rewrite value_bind. discriminate.
Qed.

(** Every attempt calls the client first, with the same request. *)
Lemma tryUpload_calls attempt :
  calls (effects (tryUpload opts env task attempt)) = [req].
Proof.
  unfold tryUpload.
  destruct (client env (request opts task) attempt) as [status|e0]; [|reflexivity].
  destruct (status =? 200)%Z; [|reflexivity].
  destruct (autoDelete opts); [|reflexivity].
  now destruct (unlink env (UploadTask.filePath task)).
Qed.

Lemma attemptsFrom_failing R err :
  (forall k, value (tryUpload opts env task k) = Thrown (err k)) ->
  forall remaining attempt,
    attempt + remaining = S R -> 1 <= remaining ->
    value (attemptsFrom opts env task silent R remaining attempt) = gaveUp task R (err R)
    /\ withoutLogs (effects (attemptsFrom opts env task silent R remaining attempt)) =
       flat_map (fun k => [Call req; Sleep (1000 * k)]) (seq attempt (remaining - 1))
       ++ [Call req].
Proof.
  intros Hfail. induction remaining as [|r IH]; intros attempt Hsum Hpos; [lia|].
  cbn [attemptsFrom]. rewrite value_bind, effects_bind, withoutLogs_app.
  rewrite (tryUpload_thrown _ _ (Hfail attempt)), (Hfail attempt).
  destruct (Nat.eqb_spec attempt R) as [->|Hne].
  - assert (r = 0) by lia. subst r.
    rewrite value_bind, effects_bind, withoutLogs_app, withoutLogs_logUnlessSilent.
    split; reflexivity.
  - destruct (IH (S attempt)) as [IHv IHe]; [lia|lia|].
    rewrite !value_bind, !effects_bind, !withoutLogs_app, withoutLogs_logUnlessSilent.
    split; [exact IHv|].
    rewrite IHe. replace (S r - 1) with (S (r - 1)) by lia.
    reflexivity.
Qed.

Lemma attemptsFrom_calls R remaining attempt r :
  In r (calls (effects (attemptsFrom opts env task silent R remaining attempt))) ->
  r = req.
Proof.
  revert attempt. induction remaining as [|n IH]; intros attempt; [intros []|].
  cbn [attemptsFrom]. rewrite calls_bind, tryUpload_calls.
  intros [H|H]; [now symmetry|].
  revert H. destruct (value (tryUpload opts env task attempt)) as [result|e]; [intros []|].
  destruct (attempt =? R).
  - rewrite calls_bind, calls_logUnlessSilent. intros [].
  - rewrite !calls_bind, calls_logUnlessSilent. apply IH.
Qed.

Lemma attemptsFrom_first_call R remaining attempt :
  exists rest,
    calls (effects (attemptsFrom opts env task silent R (S remaining) attempt)) = req :: rest.
Proof.
  cbn [attemptsFrom]. rewrite calls_bind, tryUpload_calls. eexists. reflexivity.
Qed.

(** What a successful attempt returns and does. *)
Lemma tryUpload_ok attempt :
  client env req attempt = Returned 200%Z ->
  value (tryUpload opts env task attempt) = Returned (uploaded task attempt)
  /\ effects (tryUpload opts env task attempt) =
     Call req ::
     (if autoDelete opts then
        Unlink (UploadTask.filePath task) ::
        match unlink env (UploadTask.filePath task) with
        | Returned _ => []
        | Thrown _ => [ConsoleWarn (DeleteLocalFailed (UploadTask.filePath task))]
        end
      else []).
Proof.
  intros H. unfold tryUpload. fold req. rewrite H.
  destruct (autoDelete opts); [|split; reflexivity].
  destruct (unlink env (UploadTask.filePath task)); split; reflexivity.
Qed.

Lemma attemptsFrom_succeeding R k :
  client env req k = Returned 200%Z ->
  (forall j, 1 <= j < k -> exists e, value (tryUpload opts env task j) = Thrown e) ->
  k <= R ->
  forall remaining attempt,
    attempt + remaining = S R -> 1 <= attempt <= k ->
    value (attemptsFrom opts env task silent R remaining attempt) = uploaded task k
    /\ incl (effects (tryUpload opts env task k))
            (effects (attemptsFrom opts env task silent R remaining attempt)).
Proof.
  intros Hok Hbefore HkR.
  induction remaining as [|r IH]; intros attempt Hsum Hle; [lia|].
  cbn [attemptsFrom]. rewrite value_bind, effects_bind.
  destruct (Nat.eq_dec attempt k) as [->|Hne].
  - destruct (tryUpload_ok k Hok) as [Hv _]. rewrite Hv.
    split; [reflexivity|]. apply incl_appl, incl_refl.
  - destruct (Hbefore attempt) as [e He]; [lia|]. rewrite He.
    destruct (Nat.eqb_spec attempt R) as [->|HneR]; [lia|].
    destruct (IH (S attempt)) as [IHv IHe]; [lia|lia|].
    rewrite !value_bind, !effects_bind. split; [exact IHv|].
    apply incl_appr, incl_appr, incl_appr. exact IHe.
Qed.

End OneTask.

(** The result of an upload depends on the options through the request
    only, and on the collaborators through the client only. *)
Lemma tryUpload_value_ext opts opts' env env' task attempt :
  request opts task = request opts' task ->
  (forall r k, client env r k = client env' r k) ->
  value (tryUpload opts env task attempt) = value (tryUpload opts' env' task attempt).
Proof.
  intros Hreq Hclient. unfold tryUpload.
  rewrite !value_bind, <- Hreq, <- Hclient.
  destruct (client env (request opts task) attempt) as [status|e]; [|reflexivity].
  destruct (status =? 200)%Z; [|reflexivity].
  now rewrite !value_bind.
Qed.

Lemma attemptsFrom_value_ext opts opts' env env' task silent R :
  request opts task = request opts' task ->
  (forall r k, client env r k = client env' r k) ->
  forall remaining attempt,
    value (attemptsFrom opts env task silent R remaining attempt) =
    value (attemptsFrom opts' env' task silent R remaining attempt).
Proof.
  intros Hreq Hclient.
  induction remaining as [|r IH]; intros attempt; [reflexivity|].
  cbn [attemptsFrom]. rewrite !value_bind.
  rewrite (tryUpload_value_ext opts opts' env env' task attempt Hreq Hclient).
  destruct (value (tryUpload opts' env' task attempt)) as [result|e]; [reflexivity|].
  destruct (attempt =? R).
  - now rewrite !value_bind.
  - rewrite !value_bind. apply IH.
Qed.

Lemma uploadFileWithRetry_value_ext opts opts' env env' task silent R :
  request opts task = request opts' task ->
  (forall r k, client env r k = client env' r k) ->
  value (uploadFileWithRetry opts env task silent R) =
  value (uploadFileWithRetry opts' env' task silent R).
Proof. intros. now apply attemptsFrom_value_ext. Qed.

Lemma delays_backoff req a n :
  delays (flat_map (fun k => [Call req; Sleep (1000 * k)]) (seq a n) ++ [Call req]) =
  map (fun k => 1000 * k) (seq a n).
Proof.
  revert a. induction n as [|n IH]; intros a; [reflexivity|].
  cbn [seq flat_map map]. cbn [app delays flat_map].
  f_equal. apply IH.
Qed.

Lemma calls_withoutLogs es : calls (withoutLogs es) = calls es.
Proof.
  induction es as [|e es IH]; [reflexivity|].
  destruct e; simpl; rewrite ?IH; reflexivity.
Qed.

Lemma calls_backoff req a n :
  length (calls (flat_map (fun k => [Call req; Sleep (1000 * k)]) (seq a n) ++ [Call req])) =
  S n.
Proof.
  revert a. induction n as [|n IH]; intros a; [reflexivity|].
  cbn [seq flat_map]. cbn [app calls flat_map length].
  f_equal. apply IH.
Qed.

Lemma backoff_increasing a n : StronglySorted lt (map (fun k => 1000 * k) (seq a n)).
Proof.
  revert a. induction n as [|n IH]; intros a; [constructor|].
  cbn [seq map]. constructor; [apply IH|].
  apply Forall_forall. intros d Hd. apply in_map_iff in Hd.
  destruct Hd as [k [<- Hk]]. apply in_seq in Hk. lia.
Qed.

End RetryFacts.

(** ** Facts about the pool of workers *)

Module PoolFacts.

Ltac ltb_cases :=
  repeat match goal with
    | |- context [?a <? ?b] => destruct (Nat.ltb_spec a b)
    | H : context [?a <? ?b] |- _ => destruct (Nat.ltb_spec a b)
    | |- context [Nat.eq_dec ?a ?b] => destruct (Nat.eq_dec a b)
    | H : context [Nat.eq_dec ?a ?b] |- _ => destruct (Nat.eq_dec a b)
    end.

Ltac fields :=
  cbn [results tasks completed failed uploadedBytes retries activeFiles
       currentIndex workers trace record].

Lemma count_seq a n i :
  count_occ Nat.eq_dec (seq a n) i = if (a <=? i) && (i <? a + n) then 1 else 0.
Proof.
  revert a. induction n as [|n IH]; intros a.
  - simpl. destruct (a <=? i) eqn:E1; [|reflexivity].
    destruct (Nat.ltb_spec i (a + 0)); [|reflexivity].
    apply Nat.leb_le in E1. lia.
  - cbn [seq count_occ]. rewrite IH.
    destruct (Nat.eq_dec a i) as [->|Hne].
    + replace (S i <=? i) with false by (symmetry; apply Nat.leb_gt; lia).
      rewrite Nat.leb_refl. replace (i <? i + S n) with true
        by (symmetry; apply Nat.ltb_lt; lia). reflexivity.
    + destruct (Nat.leb_spec (S a) i), (Nat.leb_spec a i),
        (Nat.ltb_spec i (S a + n)), (Nat.ltb_spec i (a + S n)); simpl; lia.
Qed.

Lemma count_seq0 n i : count_occ Nat.eq_dec (seq 0 n) i = if i <? n then 1 else 0.
Proof. rewrite count_seq. reflexivity. Qed.

Lemma settled_app tr tr' : settled (tr ++ tr') = settled tr ++ settled tr'.
Proof. apply flat_map_app. Qed.

Lemma handedOver_app tr tr' : handedOver (tr ++ tr') = handedOver tr ++ handedOver tr'.
Proof. apply flat_map_app. Qed.

Lemma awaited_app ws ws' : awaited (ws ++ ws') = awaited ws ++ awaited ws'.
Proof. apply flat_map_app. Qed.

Lemma settled_stat_only tr : forallb (fun ev => negb (isUploadEvent ev)) tr = true -> settled tr = [].
Proof.
  induction tr as [|ev tr IH]; [reflexivity|].
  simpl. intros H. apply andb_prop in H. destruct H as [Hev Htr].
  destruct ev; try discriminate; simpl; auto.
Qed.

Lemma handedOver_stat_only tr :
  forallb (fun ev => negb (isUploadEvent ev)) tr = true -> handedOver tr = [].
Proof.
  induction tr as [|ev tr IH]; [reflexivity|].
  simpl. intros H. apply andb_prop in H. destruct H as [Hev Htr].
  destruct ev; try discriminate; simpl; auto.
Qed.

(** Replacing a worker in the list. *)
Lemma setWorker_split ws w x wk :
  nth_error ws w = Some x ->
  exists l1 l2, ws = l1 ++ x :: l2 /\ setWorker w wk ws = l1 ++ wk :: l2.
Proof.
  revert w. induction ws as [|y ws IH]; intros [|w] H; try discriminate.
  - injection H as ->. exists [], ws. split; reflexivity.
  - destruct (IH w H) as [l1 [l2 [-> Hset]]].
    exists (y :: l1), l2. simpl. rewrite Hset. split; reflexivity.
Qed.

Lemma inflight_awaiting ws w :
  In w (inflight ws) -> exists i, nth_error ws w = Some (Awaiting i).
Proof.
  unfold inflight. intros H. apply filter_In in H. destruct H as [Hin Hw].
  apply in_seq in Hin.
  destruct (nth w ws Exited) as [i|] eqn:E; [|discriminate].
  exists i. rewrite <- E. apply nth_error_nth'. lia.
Qed.

Lemma inflight_nil_awaited ws : inflight ws = [] -> awaited ws = [].
Proof.
  intros H.
  assert (Hall : forall wk, In wk ws -> wk = Exited).
  { intros [i|] Hin; [|reflexivity].
    destruct (In_nth ws (Awaiting i) Exited Hin) as [w [Hlt Hnth]].
    assert (Hw : In w (inflight ws)).
    { unfold inflight. apply filter_In. split; [apply in_seq; lia|].
      now rewrite Hnth. }
    rewrite H in Hw. destruct Hw. }
  clear H. induction ws as [|wk ws IH]; [reflexivity|].
  simpl. rewrite (Hall wk (or_introl eq_refl)). simpl.
  apply IH. intros wk' Hin. apply Hall. now right.
Qed.

Lemma choose_In {A} (sched : Schedule) step (first : A) l :
  l <> [] -> In (choose sched step first l) l.
Proof.
  intros Hne. unfold choose. apply nth_In.
  apply Nat.mod_upper_bound. destruct l; [congruence|discriminate].
Qed.

(** A schedule can let any pending operation settle next. *)
Lemma choose_any {A} (first x : A) l :
  In x l -> exists k, forall (sched : Schedule) step, sched step = k -> choose sched step first l = x.
Proof.
  intros Hin. destruct (In_nth l x first Hin) as [k [Hk Hnth]].
  exists k. intros sched step Hs. unfold choose.
  now rewrite Hs, Nat.mod_small.
Qed.

Lemma awaited_nil_exited ws : awaited ws = [] -> Forall (fun wk => wk = Exited) ws.
Proof.
  induction ws as [|[i|] ws IH]; intros H; [constructor|discriminate|].
  constructor; [reflexivity|]. now apply IH.
Qed.

Lemma sumSizes_snoc rs r :
  sumSizes (rs ++ [r]) =
  if UploadResult.success r then (sumSizes rs + UploadResult.size r)%N else sumSizes rs.
Proof. unfold sumSizes. rewrite fold_left_app. reflexivity. Qed.

Section Invariant.
Variable opts : Options.
Variable env : Env.
Variable ui : bool.
Variable T : list UploadTask.t.
Variable P : list UploadResult.t.
Variable tr0 : list Event.

Local Abbreviation Inv := (PoolInv opts env ui T P tr0).

(** What the head of the worker loop changes. *)
Lemma claim_facts st st' wk :
  tasks st = T -> claim st = (st', wk) ->
  tasks st' = T /\ results st' = results st /\ completed st' = completed st
  /\ uploadedBytes st' = uploadedBytes st /\ workers st' = workers st
  /\ currentIndex st' = S (currentIndex st)
  /\ settled (trace st') = settled (trace st)
  /\ (exists ups, trace st' = trace st ++ ups /\ forallb isUploadEvent ups = true
                  /\ incl (handedOver ups) T)
  /\ ((wk = Exited /\ length T <= currentIndex st)
      \/ (wk = Awaiting (currentIndex st) /\ currentIndex st < length T)).
Proof.
  intros HT. unfold claim. rewrite HT.
  destruct (nth_error T (currentIndex st)) as [task|] eqn:E;
    intros H; injection H as <- <-; fields.
  - repeat split; auto.
    + rewrite settled_app. cbn. apply app_nil_r.
    + exists [UploadStart (currentIndex st) task]. repeat split.
      intros t [<-|[]]. eapply nth_error_In; eauto.
    + right. split; [reflexivity|]. apply nth_error_Some. congruence.
  - repeat split; auto.
    + exists []. rewrite app_nil_r. repeat split. intros t [].
    + left. split; [reflexivity|]. now apply nth_error_None.
Qed.

(** The counting part of the invariant across a claim: [others] are
    the indices awaited by the other workers. *)
Lemma claim_count (done others : list nat) ci wk :
  (forall i, count_occ Nat.eq_dec done i + count_occ Nat.eq_dec others i =
             if i <? Nat.min ci (length T) then 1 else 0) ->
  (wk = Exited /\ length T <= ci) \/ (wk = Awaiting ci /\ ci < length T) ->
  forall i,
    count_occ Nat.eq_dec done i
    + (count_occ Nat.eq_dec others i + count_occ Nat.eq_dec (awaited [wk]) i) =
    if i <? Nat.min (S ci) (length T) then 1 else 0.
Proof.
  intros H Hwk i. specialize (H i).
  destruct Hwk as [[-> Hle]|[-> Hlt]]; cbn [awaited flat_map app count_occ].
  - replace (Nat.min (S ci) (length T)) with (Nat.min ci (length T)) by lia. lia.
  - ltb_cases; lia.
Qed.

Lemma spawn_inv st : Inv st -> Inv (spawn st).
Proof.
  intros [HT Hres Hcount Hex Hcomp Hbytes [ups [Htr [Hups Hin]]]].
  unfold spawn. destruct (claim st) as [st' wk] eqn:Hclaim.
  destruct (claim_facts st st' wk HT Hclaim)
    as (HT' & Hres' & Hcomp' & Hbytes' & Hws' & Hci' & Hset' & [ups' [Htr' [Hups' Hin']]] & Hwk).
  constructor; fields.
  - exact HT'.
  - now rewrite Hres', Hset'.
  - intros i. rewrite Hset', Hws', Hci', awaited_app, count_occ_app.
    now apply claim_count.
  - rewrite Hws', Hci'. intros Hexited. apply in_app_or in Hexited.
    destruct Hexited as [Hold|[Hnew|[]]]; [specialize (Hex Hold); lia|].
    destruct Hwk as [[_ Hle]|[Hwk _]]; [lia|congruence].
  - now rewrite Hcomp', Hset'.
  - now rewrite Hbytes', Hres'.
  - exists (ups ++ ups'). rewrite Htr', Htr, app_assoc, forallb_app, Hups, Hups'.
    repeat split. rewrite handedOver_app. now apply incl_app.
Qed.

Lemma spawn_iter_inv n st : Inv st -> Inv (Nat.iter n spawn st).
Proof. intros H. induction n as [|n IH]; [exact H|]. simpl. now apply spawn_inv. Qed.

Lemma resultsAt_snoc l i task :
  nth_error T i = Some task ->
  resultsAt opts env ui T (l ++ [i]) = resultsAt opts env ui T l ++ [uploadResult opts env ui task].
Proof.
  intros H. unfold resultsAt. rewrite flat_map_app. cbn. now rewrite H.
Qed.

(** A settlement keeps the invariant and settles one more upload. *)
Lemma resume_inv w st st' :
  Inv st -> resume opts env ui w st = Some st' ->
  Inv st' /\ length (settled (trace st')) = S (length (settled (trace st)))
  /\ completed st <= completed st'
  /\ (uploadedBytes st <= uploadedBytes st')%N.
Proof.
  intros [HT Hres Hcount Hex Hcomp Hbytes [ups [Htr [Hups Hin]]]].
  unfold resume.
  destruct (nth_error (workers st) w) as [[index|]|] eqn:Hw; try discriminate.
  destruct (nth_error (tasks st) index) as [task|] eqn:Htask; [|discriminate].
  set (result := value (uploadFileWithRetry opts env task (silentLogs ui) (retryTimes opts))).
  destruct (claim (record index task result st)) as [st1 wk] eqn:Hclaim.
  intros H. injection H as <-.
  destruct (claim_facts (record index task result st) st1 wk HT Hclaim)
    as (HT' & Hres' & Hcomp' & Hbytes' & Hws' & Hci' & Hset' & [ups' [Htr' [Hups' Hin']]] & Hwk).
  cbn [record results tasks completed uploadedBytes workers currentIndex trace]
    in Hres', Hcomp', Hbytes', Hws', Hci', Hset', Htr', Hwk.
  rewrite settled_app in Hset'. cbn [settled flat_map app] in Hset'.
  destruct (setWorker_split (workers st) w (Awaiting index) wk Hw) as [l1 [l2 [Hsplit Hsetw]]].
  rewrite HT in Htask.
  split; [constructor; fields|repeat split; fields].
  - exact HT'.
  - rewrite Hres', Hset', Hres.
    rewrite (resultsAt_snoc _ _ _ Htask), app_assoc. reflexivity.
  - intros i. rewrite Hset', Hws', Hsetw, Hci'.
    pose proof (claim_count (settled (trace st) ++ [index]) (awaited l1 ++ awaited l2)
                  (currentIndex st) wk) as Hc.
    change (wk :: l2) with ([wk] ++ l2). rewrite !awaited_app, !count_occ_app.
    lapply Hc; [clear Hc; intros Hc; specialize (Hc Hwk i);
                rewrite !count_occ_app in Hc; lia|].
    intros j. rewrite !count_occ_app. specialize (Hcount j). rewrite Hsplit in Hcount.
    change (Awaiting index :: l2) with ([Awaiting index] ++ l2) in Hcount.
    rewrite !awaited_app, !count_occ_app in Hcount.
    cbn [awaited flat_map app] in Hcount. lia.
  - rewrite Hws', Hsetw, Hci'. intros Hexited. apply in_app_or in Hexited.
    assert (Hold : In Exited (workers st) -> length T <= S (currentIndex st))
      by (intros Hi; specialize (Hex Hi); lia).
    destruct Hexited as [Hi|[Hi|Hi]].
    + apply Hold. rewrite Hsplit. apply in_or_app. now left.
    + destruct Hwk as [[_ Hle]|[Hwk _]]; [lia|congruence].
    + apply Hold. rewrite Hsplit. apply in_or_app. right. now right.
  - rewrite Hcomp', Hset', Hcomp, length_app. cbn. lia.
  - rewrite Hbytes', Hres', sumSizes_snoc, Hbytes. reflexivity.
  - exists (ups ++ [UploadSettle index] ++ ups').
    rewrite Htr', Htr, <- !app_assoc, !forallb_app, Hups, Hups'.
    repeat split. rewrite !handedOver_app. cbn. now apply incl_app.
  - rewrite Hset', length_app. cbn. lia.
  - rewrite Hcomp'. lia.
  - rewrite Hbytes'. destruct (UploadResult.success result); lia.
Qed.

(** A suspended worker can always be resumed. *)
Lemma resume_some w st :
  Inv st -> In w (inflight (workers st)) -> exists st', resume opts env ui w st = Some st'.
Proof.
  intros [HT Hres Hcount Hex Hcomp Hbytes Htr] Hw.
  destruct (inflight_awaiting _ _ Hw) as [index Hnth].
  unfold resume. rewrite Hnth.
  assert (Hlt : index < length T).
  { destruct (setWorker_split (workers st) w _ Exited Hnth) as [l1 [l2 [Hsplit _]]].
    specialize (Hcount index). rewrite Hsplit in Hcount.
    change (Awaiting index :: l2) with ([Awaiting index] ++ l2) in Hcount.
    rewrite !awaited_app, !count_occ_app in Hcount.
    cbn [awaited flat_map app count_occ] in Hcount.
    ltb_cases; try lia. }
  rewrite HT. destruct (nth_error T index) as [task|] eqn:E.
  - destruct (claim _). eexists. reflexivity.
  - apply nth_error_None in E. lia.
Qed.

Lemma inv_perm st :
  Inv st ->
  Permutation (settled (trace st) ++ awaited (workers st))
              (seq 0 (Nat.min (currentIndex st) (length T))).
Proof.
  intros H. apply (Permutation_count_occ Nat.eq_dec). intros i.
  rewrite count_occ_app, count_seq0. apply (inv_count _ _ _ _ _ _ _ H).
Qed.

Lemma inv_bound st :
  Inv st -> length (settled (trace st)) + length (awaited (workers st)) <= length T.
Proof.
  intros H. apply inv_perm in H. apply Permutation_length in H.
  rewrite length_app, length_seq in H. lia.
Qed.

Lemma resume_workers w st st' :
  Inv st -> resume opts env ui w st = Some st' -> workers st' <> [].
Proof.
  intros HI. unfold resume.
  destruct (nth_error (workers st) w) as [[index|]|] eqn:Hw; try discriminate.
  destruct (nth_error (tasks st) index) as [task|]; [|discriminate].
  set (result := value _).
  destruct (claim _) as [st1 wk] eqn:Hclaim. intros H. injection H as <-. fields.
  destruct (claim_facts (record index task result st) st1 wk
              (inv_tasks _ _ _ _ _ _ _ HI) Hclaim)
    as (_ & _ & _ & _ & Hws & _).
  rewrite Hws. fields.
  destruct (setWorker_split (workers st) w _ wk Hw) as [l1 [l2 [_ ->]]].
  now destruct l1.
Qed.

(** The pool drains: the invariant holds when [drain] stops, the
    counters have not decreased, and with enough fuel no worker is
    left suspended. *)
Lemma drain_inv uploadOrder fuel :
  forall step st,
    Inv st ->
    let st' := drain opts env ui uploadOrder fuel step st in
    Inv st'
    /\ completed st <= completed st'
    /\ (uploadedBytes st <= uploadedBytes st')%N
    /\ (workers st <> [] -> workers st' <> [])
    /\ (length T <= fuel + length (settled (trace st)) -> awaited (workers st') = []).
Proof.
  induction fuel as [|fuel IH]; intros step st HI; cbv zeta; cbn [drain].
  - split; [exact HI|]. split; [lia|]. split; [lia|]. split; [auto|].
    intros Hfuel. pose proof (inv_bound st HI).
    destruct (awaited (workers st)); [reflexivity|simpl in *; lia].
  - destruct (inflight (workers st)) as [|first rest] eqn:Hfl.
    + split; [exact HI|]. split; [lia|]. split; [lia|]. split; [auto|].
      intros _. now apply inflight_nil_awaited.
    + assert (Hin : In (choose uploadOrder step first (first :: rest))
                       (inflight (workers st))).
      { rewrite Hfl. apply choose_In. discriminate. }
      destruct (resume_some _ st HI Hin) as [st1 Hst1]. rewrite Hst1.
      destruct (resume_inv _ _ _ HI Hst1) as (HI1 & Hlen & Hc & Hb).
      pose proof (IH (S step) st1 HI1) as IH1. cbv zeta in IH1.
      destruct IH1 as (HI' & Hc' & Hb' & Hw' & Hdone).
      split; [exact HI'|]. split; [lia|]. split; [lia|]. split.
      * intros _. apply Hw'. exact (resume_workers _ st st1 HI Hst1).
      * intros Hfuel. apply Hdone. lia.
Qed.

Lemma drain_succ uploadOrder fuel :
  forall step st,
    Inv st ->
    completed (drain opts env ui uploadOrder fuel step st)
    <= completed (drain opts env ui uploadOrder (S fuel) step st)
    /\ (uploadedBytes (drain opts env ui uploadOrder fuel step st)
        <= uploadedBytes (drain opts env ui uploadOrder (S fuel) step st))%N.
Proof.
  induction fuel as [|fuel IH]; intros step st HI.
  - pose proof (drain_inv uploadOrder 1 step st HI) as H. cbv zeta in H.
    cbn [drain] in *. tauto.
  - cbn [drain]. destruct (inflight (workers st)) as [|first rest] eqn:Hfl;
      [split; lia|].
    destruct (resume opts env ui _ st) as [st1|] eqn:Hst1; [|split; lia].
    apply (IH (S step) st1). eapply resume_inv; eauto.
Qed.

Lemma awaited_nil_inflight ws : awaited ws = [] -> inflight ws = [].
Proof.
  intros H. destruct (inflight ws) as [|w rest] eqn:E; [reflexivity|].
  destruct (inflight_awaiting ws w) as [i Hi]; [rewrite E; now left|].
  apply nth_error_In in Hi. apply in_split in Hi. destruct Hi as [l1 [l2 ->]].
  rewrite awaited_app in H. simpl in H. now destruct (awaited l1).
Qed.

(** More fuel than uploads changes nothing. *)
Lemma drain_enough uploadOrder fuel :
  forall step st,
    Inv st -> length T <= fuel + length (settled (trace st)) ->
    forall more,
      drain opts env ui uploadOrder (more + fuel) step st =
      drain opts env ui uploadOrder fuel step st.
Proof.
  induction fuel as [|fuel IH]; intros step st HI Hfuel more.
  - rewrite Nat.add_0_r. cbn [drain].
    assert (Hnil : inflight (workers st) = []).
    { apply awaited_nil_inflight. pose proof (inv_bound st HI).
      destruct (awaited (workers st)); [reflexivity|simpl in *; lia]. }
    destruct more; cbn [drain]; [reflexivity|]. now rewrite Hnil.
  - rewrite Nat.add_succ_r. cbn [drain].
    destruct (inflight (workers st)) as [|first rest] eqn:Hfl; [reflexivity|].
    destruct (resume opts env ui _ st) as [st1|] eqn:Hst1; [|reflexivity].
    destruct (resume_inv _ _ _ HI Hst1) as (HI1 & Hlen & _).
    apply IH; [exact HI1|lia].
Qed.

End Invariant.

End PoolFacts.

(** ** Facts about uploadFilesInBatches *)

Module BatchFacts.
Import PoolFacts.

Section Run.
Variable opts : Options.
Variable env : Env.
Variable outDir : string.
Variable ui : bool.

Local Abbreviation up := (uploadResult opts env ui).
Local Abbreviation cands files := (map (candidateOf opts env outDir) files).

(** The loop over the candidates. *)
Lemma sortCandidates_facts cs :
  forall st,
    let st' := fold_left sortCandidate cs st in
    results st' = results st ++ statFailures cs
    /\ tasks st' = tasks st ++ tasksOf cs
    /\ completed st' = completed st + length (statFailures cs)
    /\ uploadedBytes st' = uploadedBytes st
    /\ currentIndex st' = currentIndex st
    /\ workers st' = workers st
    /\ trace st' = trace st.
Proof.
  induction cs as [|c cs IH]; intros st; cbv zeta.
  - cbn. rewrite !app_nil_r. repeat split; lia.
  - cbn [fold_left]. pose proof (IH (sortCandidate st c)) as H. cbv zeta in H.
    destruct H as (Hr & Ht & Hc & Hb & Hi & Hw & Htr).
    rewrite Hr, Ht, Hc, Hb, Hi, Hw, Htr.
    destruct c as [task|e fp n].
    + change (statFailures (WithTask task :: cs)) with (statFailures cs).
      change (tasksOf (WithTask task :: cs)) with (task :: tasksOf cs).
      cbn [sortCandidate]; fields. rewrite <- ?app_assoc.
      repeat split; reflexivity.
    + change (statFailures (WithoutTask e fp n :: cs))
        with (statFailed e fp n :: statFailures cs).
      change (tasksOf (WithoutTask e fp n :: cs)) with (tasksOf cs).
      cbn [sortCandidate]; fields. rewrite <- ?app_assoc. cbn [length].
      repeat split; try reflexivity; lia.
Qed.

Lemma sumSizes_statFailures cs : sumSizes (statFailures cs) = 0%N.
Proof.
  induction cs as [|c cs IH]; [reflexivity|].
  destruct c; cbn; [exact IH|]. exact IH.
Qed.

Lemma length_candidates cs : length (statFailures cs) + length (tasksOf cs) = length cs.
Proof.
  induction cs as [|c cs IH]; [reflexivity|].
  destruct c as [task|e fp n].
  - change (statFailures (WithTask task :: cs)) with (statFailures cs).
    change (tasksOf (WithTask task :: cs)) with (task :: tasksOf cs).
    cbn [length]. lia.
  - change (statFailures (WithoutTask e fp n :: cs))
      with (statFailed e fp n :: statFailures cs).
    change (tasksOf (WithoutTask e fp n :: cs)) with (tasksOf cs).
    cbn [length]. lia.
Qed.

Lemma statPhase_stat_only statOrder files :
  forallb (fun ev => negb (isUploadEvent ev)) (statPhase env outDir statOrder files) = true.
Proof.
  unfold statPhase. rewrite forallb_app. apply andb_true_intro. split.
  - induction (map (filePathOf env outDir) files); [reflexivity|assumption].
  - induction (settleOrder _ _ _ _); [reflexivity|assumption].
Qed.

Lemma sorted_facts statOrder files :
  let st := sorted opts env outDir statOrder files in
  results st = statFailures (cands files)
  /\ tasks st = tasksOf (cands files)
  /\ completed st = length (statFailures (cands files))
  /\ uploadedBytes st = 0%N
  /\ currentIndex st = 0
  /\ workers st = []
  /\ trace st = statPhase env outDir statOrder files.
Proof.
  cbv zeta. unfold sorted.
  pose proof (sortCandidates_facts (cands files) (initial env outDir statOrder files)) as H.
  cbv zeta in H. exact H.
Qed.

Lemma sorted_inv statOrder files :
  let st := sorted opts env outDir statOrder files in
  PoolInv opts env ui (tasks st) (results st) (trace st) st.
Proof.
  cbv zeta. destruct (sorted_facts statOrder files) as (Hr & Ht & Hc & Hb & Hi & Hw & Htr).
  assert (Hs : settled (trace (sorted opts env outDir statOrder files)) = []).
  { rewrite Htr. apply settled_stat_only, statPhase_stat_only. }
  constructor.
  - reflexivity.
  - rewrite Hs. cbn. now rewrite app_nil_r.
  - intros i. rewrite Hs, Hw, Hi. reflexivity.
  - rewrite Hw. intros [].
  - rewrite Hs, Hc, Hr. cbn. lia.
  - rewrite Hb, Hr. symmetry. apply sumSizes_statFailures.
  - exists []. rewrite app_nil_r. repeat split. intros t [].
Qed.

Lemma spawn_workers st : workers (spawn st) <> [].
Proof.
  unfold spawn. destruct (claim st) as [st' wk]. cbn. now destruct (workers st').
Qed.

Lemma safeWindowSize_pos windowSize taskCount :
  exists n, safeWindowSize windowSize taskCount = S n.
Proof.
  unfold safeWindowSize.
  destruct (Nat.max 1 _) eqn:E; [lia|]. eexists. reflexivity.
Qed.

Lemma spawn_counters st :
  completed (spawn st) = completed st /\ uploadedBytes (spawn st) = uploadedBytes st.
Proof.
  unfold spawn, claim. destruct (nth_error _ _); split; reflexivity.
Qed.

Lemma spawn_iter_counters n st :
  completed (Nat.iter n spawn st) = completed st
  /\ uploadedBytes (Nat.iter n spawn st) = uploadedBytes st.
Proof.
  induction n as [|n [IHc IHb]]; [split; reflexivity|].
  change (Nat.iter (S n) spawn st) with (spawn (Nat.iter n spawn st)).
  destruct (spawn_counters (Nat.iter n spawn st)) as [Hc Hb].
  split; congruence.
Qed.

Lemma spawned_inv statOrder files windowSize :
  let st0 := sorted opts env outDir statOrder files in
  let st := spawned opts env outDir statOrder files windowSize in
  PoolInv opts env ui (tasks st0) (results st0) (trace st0) st
  /\ workers st <> []
  /\ settled (trace st) = [].
Proof.
  cbv zeta. unfold spawned.
  assert (Hs0 : settled (trace (sorted opts env outDir statOrder files)) = []).
  { destruct (sorted_facts statOrder files) as (_ & _ & _ & _ & _ & _ & Htr).
    rewrite Htr. apply settled_stat_only, statPhase_stat_only. }
  split; [apply spawn_iter_inv, sorted_inv|]. split.
  - destruct (safeWindowSize_pos windowSize
                (length (tasks (sorted opts env outDir statOrder files)))) as [n ->].
    change (Nat.iter (S n) spawn ?s) with (spawn (Nat.iter n spawn s)).
    apply spawn_workers.
  - generalize (safeWindowSize windowSize
                  (length (tasks (sorted opts env outDir statOrder files)))) as n.
    induction n as [|n IH]; [exact Hs0|].
    change (Nat.iter (S n) spawn ?s) with (spawn (Nat.iter n spawn s)).
    unfold spawn at 1. destruct (claim _) as [st' wk] eqn:Hclaim. fields.
    unfold claim in Hclaim.
    destruct (nth_error _ _); injection Hclaim as <- _; fields; [|exact IH].
    rewrite settled_app, IH. reflexivity.
Qed.

Lemma resultsAt_seq T1 T2 :
  resultsAt opts env ui (T1 ++ T2) (seq (length T1) (length T2)) = map up T2.
Proof.
  revert T1. induction T2 as [|t T2 IH]; intros T1; [reflexivity|].
  cbn [length seq map]. unfold resultsAt. cbn [flat_map].
  rewrite nth_error_app2, Nat.sub_diag by lia. cbn [nth_error app].
  f_equal. specialize (IH (T1 ++ [t])).
  rewrite <- app_assoc, length_app, Nat.add_1_r in IH. exact IH.
Qed.

Lemma resultsAt_perm T l l' :
  Permutation l l' -> Permutation (resultsAt opts env ui T l) (resultsAt opts env ui T l').
Proof. apply Permutation_flat_map. Qed.

Lemma expected_perm cs :
  Permutation (statFailures cs ++ map up (tasksOf cs)) (map (resultOf opts env ui) cs).
Proof.
  induction cs as [|c cs IH]; [constructor|].
  destruct c as [task|e fp n]; cbn.
  - apply Permutation_sym, Permutation_cons_app, Permutation_sym, IH.
  - now constructor.
Qed.

Lemma all_exited ws : ws <> [] -> awaited ws = [] -> In Exited ws.
Proof.
  destruct ws as [|[i|] ws]; [congruence|discriminate|]. intros _ _. now left.
Qed.

(** The state in which [uploadFilesInBatches] returns. *)
Lemma finished_facts statOrder uploadOrder files windowSize :
  let cs := cands files in
  let st := finished opts env outDir ui statOrder uploadOrder files windowSize in
  Permutation (settled (trace st)) (seq 0 (length (tasksOf cs)))
  /\ results st = statFailures cs ++ resultsAt opts env ui (tasksOf cs) (settled (trace st))
  /\ tasks st = tasksOf cs
  /\ completed st = length files
  /\ uploadedBytes st = sumSizes (results st)
  /\ awaited (workers st) = []
  /\ workers st <> []
  /\ exists ups,
       trace st = statPhase env outDir statOrder files ++ ups
       /\ forallb isUploadEvent ups = true
       /\ incl (handedOver ups) (tasksOf cs).
Proof.
  cbv zeta. unfold finished.
  destruct (sorted_facts statOrder files) as (Hr & Ht & Hc & Hb & Hi & Hw & Htr).
  pose proof (spawned_inv statOrder files windowSize) as Hsp. cbv zeta in Hsp.
  destruct Hsp as (HI & Hne & Hs).
  assert (Hs0 : settled (trace (sorted opts env outDir statOrder files)) = []).
  { rewrite Htr. apply settled_stat_only, statPhase_stat_only. }
  pose proof (drain_inv opts env ui _ _ _ uploadOrder
                (length (tasks (spawned opts env outDir statOrder files windowSize)))
                0 _ HI) as Hd.
  cbv zeta in Hd. destruct Hd as (HF & _ & _ & HneF & Hdone).
  specialize (HneF Hne).
  assert (Haw : awaited (workers
            (drain opts env ui uploadOrder
               (length (tasks (spawned opts env outDir statOrder files windowSize))) 0
               (spawned opts env outDir statOrder files windowSize))) = []).
  { apply Hdone. rewrite (inv_tasks _ _ _ _ _ _ _ HI). lia. }
  pose proof (inv_exited _ _ _ _ _ _ _ HF (all_exited _ HneF Haw)) as Hci.
  destruct HF as [HT Hres Hcount _ Hcomp Hbytes Htrace].
  rewrite Ht in *. rewrite Hr in *. rewrite Htr in *.
  split.
  { apply (Permutation_count_occ Nat.eq_dec). intros i.
    specialize (Hcount i). rewrite Haw in Hcount. cbn [count_occ] in Hcount.
    rewrite count_seq0. rewrite Nat.min_r in Hcount by exact Hci. lia. }
  split; [exact Hres|]. split; [exact HT|]. split.
  { rewrite Hcomp.
    assert (Hlen : length (settled (trace
              (drain opts env ui uploadOrder
                 (length (tasks (spawned opts env outDir statOrder files windowSize))) 0
                 (spawned opts env outDir statOrder files windowSize)))) =
                   length (tasksOf (cands files))).
    { pose proof (inv_bound opts env ui _ _ _ _
                    (Build_PoolInv opts env ui _ _ _ _ HT Hres Hcount
                       (fun _ => Hci) Hcomp Hbytes Htrace)) as Hbound.
      rewrite Haw in Hbound. cbn [length] in Hbound.
      assert (Hall : forall i, i < length (tasksOf (cands files)) ->
                               In i (settled (trace
              (drain opts env ui uploadOrder
                 (length (tasks (spawned opts env outDir statOrder files windowSize))) 0
                 (spawned opts env outDir statOrder files windowSize))))).
      { intros i Hi'. apply (count_occ_In Nat.eq_dec).
        specialize (Hcount i). rewrite Haw in Hcount. cbn [count_occ] in Hcount.
        rewrite Nat.min_r in Hcount by exact Hci.
        destruct (Nat.ltb_spec i (length (tasksOf (cands files)))); lia. }
      assert (Hincl : incl (seq 0 (length (tasksOf (cands files))))
                           (settled (trace
              (drain opts env ui uploadOrder
                 (length (tasks (spawned opts env outDir statOrder files windowSize))) 0
                 (spawned opts env outDir statOrder files windowSize))))).
      { intros i Hi'. apply Hall. apply in_seq in Hi'. lia. }
      apply NoDup_incl_length in Hincl; [|apply seq_NoDup].
      rewrite length_seq in Hincl. lia. }
    rewrite Hlen. pose proof (length_candidates (cands files)) as Hl.
    rewrite length_map in Hl. exact Hl. }
  split; [exact Hbytes|]. split; [exact Haw|]. split; [exact HneF|].
  exact Htrace.
Qed.

(** The results are the one result of every candidate, in some
    order. *)
Lemma results_perm_expected statOrder uploadOrder files windowSize :
  Permutation
    (uploadFilesInBatches opts env outDir ui statOrder uploadOrder files windowSize)
    (map (resultOf opts env ui) (cands files)).
Proof.
  pose proof (finished_facts statOrder uploadOrder files windowSize) as H.
  cbv zeta in H. destruct H as (Hperm & Hres & _).
  unfold uploadFilesInBatches. rewrite Hres.
  rewrite (resultsAt_perm _ _ _ Hperm).
  pose proof (resultsAt_seq [] (tasksOf (cands files))) as Hseq.
  cbn [app length] in Hseq. rewrite Hseq. apply expected_perm.
Qed.

End Run.

(** The run depends on the options and the collaborators only through
    the candidates, the paths given to [stat] and the results of the
    uploads. *)
Section Ext.
Variables opts opts' : Options.
Variables env env' : Env.
Variable outDir : string.
Variable ui : bool.
Hypothesis same_candidates :
  forall f, candidateOf opts env outDir f = candidateOf opts' env' outDir f.
Hypothesis same_paths : forall f, filePathOf env outDir f = filePathOf env' outDir f.
Hypothesis same_uploads :
  forall task, uploadResult opts env ui task = uploadResult opts' env' ui task.

Lemma resume_ext w st : resume opts env ui w st = resume opts' env' ui w st.
Proof.
  unfold resume. destruct (nth_error (workers st) w) as [[index|]|]; try reflexivity.
  destruct (nth_error (tasks st) index) as [task|]; [|reflexivity].
  pose proof (same_uploads task) as H. unfold uploadResult in H. now rewrite H.
Qed.

Lemma drain_ext uploadOrder fuel :
  forall step st,
    drain opts env ui uploadOrder fuel step st = drain opts' env' ui uploadOrder fuel step st.
Proof.
  induction fuel as [|fuel IH]; intros step st; [reflexivity|].
  cbn [drain]. destruct (inflight (workers st)); [reflexivity|].
  rewrite resume_ext. destruct (resume opts' env' ui _ st); [apply IH|reflexivity].
Qed.

Lemma sorted_ext statOrder files :
  sorted opts env outDir statOrder files = sorted opts' env' outDir statOrder files.
Proof.
  unfold sorted, initial, statPhase.
  rewrite (map_ext _ _ same_candidates), (map_ext _ _ same_paths). reflexivity.
Qed.

Lemma finished_ext statOrder uploadOrder files windowSize :
  finished opts env outDir ui statOrder uploadOrder files windowSize =
  finished opts' env' outDir ui statOrder uploadOrder files windowSize.
Proof.
  unfold finished, spawned. rewrite sorted_ext. apply drain_ext.
Qed.

End Ext.

Lemma finished_failOnError b opts env outDir ui statOrder uploadOrder files windowSize :
  finished (withFailOnError b opts) env outDir ui statOrder uploadOrder files windowSize =
  finished opts env outDir ui statOrder uploadOrder files windowSize.
Proof. apply finished_ext; reflexivity. Qed.

Lemma finished_cleanup u d opts env outDir ui statOrder uploadOrder files windowSize :
  finished opts (withCleanup u d env) outDir ui statOrder uploadOrder files windowSize =
  finished opts env outDir ui statOrder uploadOrder files windowSize.
Proof.
  apply finished_ext; try reflexivity.
  intros task. unfold uploadResult.
  apply RetryFacts.uploadFileWithRetry_value_ext; reflexivity.
Qed.

End BatchFacts.

(** ** Facts about the order of events *)

Module TraceFacts.

Lemma removeNth_perm {A} (d : A) k l :
  k < length l -> Permutation l (nth k l d :: removeNth k l).
Proof.
  revert k. induction l as [|x l IH]; intros k Hk; [simpl in Hk; lia|].
  destruct k as [|k]; cbn [nth removeNth]; [reflexivity|].
  simpl in Hk. rewrite (IH k) at 1 by lia. apply perm_swap.
Qed.

Lemma removeNth_length {A} k (l : list A) :
  k < length l -> length (removeNth k l) = length l - 1.
Proof.
  revert k. induction l as [|x l IH]; intros k Hk; [simpl in Hk; lia|].
  destruct k as [|k]; cbn [removeNth length]; [lia|].
  simpl in Hk. rewrite IH by lia. lia.
Qed.

(** Every started operation settles, once. *)
Lemma settleOrder_perm {A} (sched : Schedule) fuel :
  forall step (pending : list A),
    length pending <= fuel -> Permutation (settleOrder sched step fuel pending) pending.
Proof.
  induction fuel as [|fuel IH]; intros step pending Hlen.
  - destruct pending; [constructor|simpl in Hlen; lia].
  - destruct pending as [|first rest]; [constructor|].
    cbn [settleOrder]. unfold choose.
    assert (Hk : sched step mod length (first :: rest) < length (first :: rest))
      by (apply Nat.mod_upper_bound; discriminate).
    apply Permutation_sym.
    eapply Permutation_trans; [apply (removeNth_perm first _ _ Hk)|].
    apply perm_skip, Permutation_sym, IH.
    rewrite removeNth_length by exact Hk. simpl in *. lia.
Qed.

Lemma peakStats_ge tr : forall p, p <= peakStats p tr.
Proof.
  induction tr as [|ev tr IH]; intros p; [apply Nat.le_refl|].
  destruct ev; cbn [peakStats]; try apply IH; lia.
Qed.

Lemma peakStats_starts ps rest :
  forall p, peakStats p (map StatStart ps ++ rest) = peakStats (p + length ps) rest.
Proof.
  induction ps as [|x ps IH]; intros p.
  - cbn. now rewrite Nat.add_0_r.
  - cbn [map app peakStats length]. rewrite IH.
    pose proof (peakStats_ge rest (S p + length ps)).
    replace (p + S (length ps)) with (S p + length ps) by lia. lia.
Qed.

Lemma peakStats_uploads ups :
  forallb isUploadEvent ups = true -> forall p, peakStats p ups = p.
Proof.
  induction ups as [|ev ups IH]; intros H p; [reflexivity|].
  cbn [forallb] in H. apply andb_prop in H. destruct H as [Hev Hups].
  destruct ev; try discriminate; cbn [peakStats]; now apply IH.
Qed.

Lemma peakStats_settles qs ups :
  forallb isUploadEvent ups = true ->
  forall p, peakStats p (map StatSettle qs ++ ups) = p.
Proof.
  intros Hups. induction qs as [|x qs IH]; intros p.
  - now apply peakStats_uploads.
  - cbn [map app peakStats]. rewrite IH. lia.
Qed.

Lemma firstn_succ {A} k (l : list A) : exists tl, firstn (S k) l = firstn k l ++ tl.
Proof.
  revert l. induction k as [|k IH]; intros l.
  - exists (firstn 1 l). reflexivity.
  - destruct l as [|x l]; [exists []; reflexivity|].
    destruct (IH l) as [tl Htl]. exists tl.
    change (firstn (S (S k)) (x :: l)) with (x :: firstn (S k) l).
    rewrite Htl. reflexivity.
Qed.

(** The bytes counted by [sumSizes] are those of the successful results. *)
Lemma sumSizes_filter rs :
  sumSizes rs =
  fold_right N.add 0%N (map UploadResult.size (filter UploadResult.success rs)).
Proof.
  unfold sumSizes.
  assert (H : forall acc,
             fold_left (fun sum result =>
                          if UploadResult.success result
                          then (sum + UploadResult.size result)%N else sum) rs acc =
             (acc + fold_right N.add 0%N
                      (map UploadResult.size (filter UploadResult.success rs)))%N).
  { induction rs as [|r rs IH]; intros acc; cbn [fold_left filter].
    - cbn. lia.
    - rewrite IH. destruct (UploadResult.success r); cbn [map fold_right]; lia. }
  rewrite H. lia.
Qed.

End TraceFacts.

(** * The properties of the engine *)

Import RetryFacts.

(** C8. For every target prefix and candidate path, the remote key
    computed by [normalizeObjectKey] has no leading slash and no doubled
    slash; candidates that differ only by repeated separators get the same
    key, and so do ["a//b/c.js"] and ["a/b/c.js"] under every prefix. The
    last two parts rest on [normalizePath] taking sequential separators
    for one. *)
Theorem normalizeObjectKey_normal (P : Key.PathLib) (targetDir relativeFilePath : string) :
  Key.mergesSeparators P ->
  Key.startsWithSlash (Key.normalizeObjectKey P targetDir relativeFilePath) = false
  /\ Key.hasDoubledSlash (Key.normalizeObjectKey P targetDir relativeFilePath) = false
  /\ (forall other,
         Key.collapseSlashes other = Key.collapseSlashes relativeFilePath ->
         Key.normalizeObjectKey P targetDir other =
         Key.normalizeObjectKey P targetDir relativeFilePath)
  /\ Key.normalizeObjectKey P targetDir "a//b/c.js" =
     Key.normalizeObjectKey P targetDir "a/b/c.js".
Proof.
  intros Hlaw. unfold Key.normalizeObjectKey.
  assert (Hsame : forall x y,
             Key.collapseSlashes x = Key.collapseSlashes y ->
             Key.normalizePath P (targetDir ++ "/" ++ x)%string =
             Key.normalizePath P (targetDir ++ "/" ++ y)%string).
  { intros x y Hxy.
    rewrite <- (Hlaw (targetDir ++ "/" ++ x)%string), <- (Hlaw (targetDir ++ "/" ++ y)%string).
    f_equal. apply KeyFacts.collapse_app_suffix; try reflexivity.
    change ("/" ++ x)%string with (String "/" x).
    change ("/" ++ y)%string with (String "/" y).
    pose proof (KeyFacts.startsWithSlash_collapse x) as Hx.
    pose proof (KeyFacts.startsWithSlash_collapse y) as Hy.
    rewrite Hxy in Hx.
    destruct (Key.startsWithSlash x) eqn:Ex, (Key.startsWithSlash y) eqn:Ey;
      try congruence.
    - rewrite !KeyFacts.collapse_slash_slash by (reflexivity || assumption). exact Hxy.
    - rewrite !KeyFacts.collapse_slash_other by (reflexivity || assumption). now rewrite Hxy. }
  split; [apply KeyFacts.strip_no_leading|].
  split; [apply KeyFacts.strip_keeps_no_doubled, KeyFacts.collapse_no_doubled|].
  split.
  - intros other Hother. now rewrite (Hsame other relativeFilePath Hother).
  - now rewrite (Hsame "a//b/c.js" "a/b/c.js" eq_refl).
Qed.

Lemma normalizeObjectKey_normal_witness :
  Key.mergesSeparators Key.separatorsOnly
  /\ Key.normalizeObjectKey Key.separatorsOnly "/H5//zz/" "a//b/c.js" = "H5/zz/a/b/c.js"
  /\ Key.startsWithSlash (Key.normalizeObjectKey Key.separatorsOnly "/H5//zz/" "a//b/c.js") = false
  /\ Key.normalizeObjectKey Key.separatorsOnly "/H5//zz/" "a//b/c.js" =
     Key.normalizeObjectKey Key.separatorsOnly "/H5//zz/" "a/b/c.js".
Proof.
  split; [exact KeyFacts.separatorsOnly_merges|].
  split; [reflexivity|].
  destruct (normalizeObjectKey_normal Key.separatorsOnly "/H5//zz/" "a//b/c.js"
              KeyFacts.separatorsOnly_merges) as (Hlead & _ & _ & Hsame).
  split; [exact Hlead|exact Hsame].
Defined.

(** C3. A task whose every attempt fails, run with [maxRetries = R >= 1],
    ends in a failure that carries the error of attempt [R] and
    [retries = R - 1] (R attempts used). Apart from console lines the
    effects are R client calls with a delay of [1000 * k] after failed
    attempt [k < R]: no delay before the first attempt and none after the
    last, and the delays increase strictly. With [R = 1] there is one call
    and no delay. *)
Theorem uploadFileWithRetry_exhausted opts env task silentLogs R (err : nat -> Error) :
  1 <= R ->
  (forall k, value (tryUpload opts env task k) = Thrown (err k)) ->
  let run := uploadFileWithRetry opts env task silentLogs R in
  value run = gaveUp task R (err R)
  /\ UploadResult.success (value run) = false
  /\ UploadResult.retries (value run) = R - 1
  /\ UploadResult.error (value run) = Some (err R)
  /\ withoutLogs (effects run) =
     flat_map (fun k => [Call (request opts task); Sleep (1000 * k)]) (seq 1 (R - 1))
     ++ [Call (request opts task)]
  /\ length (calls (effects run)) = R
  /\ delays (effects run) = map (fun k => 1000 * k) (seq 1 (R - 1))
  /\ StronglySorted lt (delays (effects run))
  /\ (R = 1 -> withoutLogs (effects run) = [Call (request opts task)]).
Proof.
  intros HR Hfail run.
  destruct (attemptsFrom_failing opts env task silentLogs R err Hfail R 1) as [Hv He];
    [lia|lia|].
  fold (uploadFileWithRetry opts env task silentLogs R) in Hv, He. fold run in Hv, He.
  assert (Hd : delays (effects run) = map (fun k => 1000 * k) (seq 1 (R - 1))).
  { rewrite <- delays_withoutLogs, He. apply delays_backoff. }
  split; [exact Hv|]. rewrite Hv. split; [reflexivity|]. split; [reflexivity|].
  split; [reflexivity|]. split; [exact He|]. split.
  - rewrite <- calls_withoutLogs, He, calls_backoff. lia.
  - split; [exact Hd|]. split; [rewrite Hd; apply backoff_increasing|].
    intros ->. exact He.
Qed.

Lemma uploadFileWithRetry_exhausted_witness :
  1 <= 3
  /\ (forall k, value (tryUpload Demo.options Demo.env Demo.bad k) = Thrown (StatusError 500))
  /\ UploadResult.retries (value (uploadFileWithRetry Demo.options Demo.env Demo.bad true 3)) = 2
  /\ UploadResult.error (value (uploadFileWithRetry Demo.options Demo.env Demo.bad true 3)) =
     Some (StatusError 500)
  /\ delays (effects (uploadFileWithRetry Demo.options Demo.env Demo.bad true 3)) = [1000; 2000].
Proof.
  assert (Hfail : forall k,
             value (tryUpload Demo.options Demo.env Demo.bad k) = Thrown (StatusError 500))
    by (intros k; reflexivity).
  split; [lia|]. split; [exact Hfail|].
  destruct (uploadFileWithRetry_exhausted Demo.options Demo.env Demo.bad true 3
              (fun _ => StatusError 500) ltac:(lia) Hfail)
    as (_ & _ & Hretries & Herror & _ & _ & Hdelays & _).
  split; [exact Hretries|]. split; [exact Herror|exact Hdelays].
Defined.

(** C4. The choice between the two transfers is [shouldUseMultipart], a
    function of the size and the threshold alone: with
    [size >= threshold] (the threshold included) every client call of the
    task is [multipartUpload] with an inner parallelism of
    [min(concurrency, 4)], with [size < threshold] (so at
    [threshold - 1]) every call is [put]. The configured concurrency is at
    least 1, as [validateOptions] demands. *)
Theorem transfer_size_policy opts env task silentLogs :
  1 <= concurrency opts ->
  let size := UploadTask.size task in
  let threshold := multipartThreshold opts in
  (shouldUseMultipart size threshold = true <-> (threshold <= Z.of_N size)%Z)
  /\ ((threshold <= Z.of_N size)%Z ->
      request opts task =
      multipartUpload (UploadTask.name task) (UploadTask.filePath task) 600000
        (1024 * 1024) (Nat.min (concurrency opts) 4) (headers opts))
  /\ ((Z.of_N size < threshold)%Z ->
      request opts task =
      put (UploadTask.name task) (UploadTask.filePath task) 600000 (headers opts))
  /\ (Z.of_N size = (threshold - 1)%Z ->
      request opts task =
      put (UploadTask.name task) (UploadTask.filePath task) 600000 (headers opts))
  /\ (forall R req,
         In req (calls (effects (uploadFileWithRetry opts env task silentLogs R))) ->
         req = request opts task)
  /\ (forall R, 1 <= R ->
         In (request opts task)
            (calls (effects (uploadFileWithRetry opts env task silentLogs R)))).
Proof.
  intros Hc size threshold.
  assert (Hiff : shouldUseMultipart size threshold = true <-> (threshold <= Z.of_N size)%Z)
    by apply Z.leb_le.
  assert (Hput : (Z.of_N size < threshold)%Z ->
                 request opts task =
                 put (UploadTask.name task) (UploadTask.filePath task) 600000 (headers opts)).
  { intros Hlt. unfold request. fold size threshold.
    destruct (shouldUseMultipart size threshold) eqn:E; [|reflexivity].
    unfold shouldUseMultipart in E. apply Z.leb_le in E. lia. }
  split; [exact Hiff|]. split.
  - intros Hge. unfold request. fold size threshold.
    destruct (shouldUseMultipart size threshold) eqn:E.
    + replace (Nat.max 1 (Nat.min (concurrency opts) 4)) with (Nat.min (concurrency opts) 4)
        by lia. reflexivity.
    + unfold shouldUseMultipart in E. apply Z.leb_gt in E. lia.
  - split; [exact Hput|]. split; [intros Heq; apply Hput; lia|]. split.
    + intros R req. apply attemptsFrom_calls.
    + intros R HR. unfold uploadFileWithRetry. destruct R as [|R]; [lia|].
      destruct (attemptsFrom_first_call opts env task silentLogs (S R) R 1) as [rest ->].
      now left.
Qed.

Lemma transfer_size_policy_witness :
  validateOptions Demo.options = []
  /\ 1 <= concurrency Demo.options
  /\ request Demo.options Demo.big =
     multipartUpload "H5/zz/big.bin" "/dist/big.bin" 600000 (1024 * 1024) 2
       (headers Demo.options)
  /\ request Demo.options Demo.bad =
     put "H5/zz/bad.js" "/dist/bad.js" 600000 (headers Demo.options).
Proof.
  assert (Hvalid : validateOptions Demo.options = []) by reflexivity.
  destruct (validateOptions_bounds Demo.options Hvalid) as (_ & Hc & _).
  split; [exact Hvalid|]. split; [exact Hc|].
  destruct (transfer_size_policy Demo.options Demo.env Demo.big true Hc)
    as (_ & Hbig & _).
  destruct (transfer_size_policy Demo.options Demo.env Demo.bad true Hc)
    as (_ & _ & Hbad & _).
  split; [apply Hbig; vm_compute; discriminate|apply Hbad; reflexivity].
Defined.

Import PoolFacts BatchFacts TraceFacts.

(** C9. With the auto-delete policy on, when attempt [k] of a task is
    answered with status 200 (the earlier attempts having failed) and the
    removal of the local file then fails, the failure is logged by a
    warning and the result returned still has [success = true]. The
    clean-up calls never affect the accounting: with any other outcome of
    [unlink] and [deleteEmpty] the batch returns the same results, and the
    handler collects the same results and counts and throws the same. *)
Theorem cleanup_failure_keeps_success opts env task silentLogs R k e :
  autoDelete opts = true ->
  1 <= k <= R ->
  (forall j, 1 <= j < k -> exists e', value (tryUpload opts env task j) = Thrown e') ->
  client env (request opts task) k = Returned 200%Z ->
  unlink env (UploadTask.filePath task) = Thrown e ->
  let run := uploadFileWithRetry opts env task silentLogs R in
  value run = uploaded task k
  /\ UploadResult.success (value run) = true
  /\ In (Unlink (UploadTask.filePath task)) (effects run)
  /\ In (ConsoleWarn (DeleteLocalFailed (UploadTask.filePath task))) (effects run)
  /\ (forall unlink' deleteEmpty' outDir ui statOrder uploadOrder files windowSize,
         uploadFilesInBatches opts (withCleanup unlink' deleteEmpty' env) outDir ui
           statOrder uploadOrder files windowSize =
         uploadFilesInBatches opts env outDir ui statOrder uploadOrder files windowSize)
  /\ (forall unlink' deleteEmpty' plugin statOrder uploadOrder files,
         collected (closeBundle opts (withCleanup unlink' deleteEmpty' env) plugin
                      statOrder uploadOrder files) =
         collected (closeBundle opts env plugin statOrder uploadOrder files)
         /\ raised (closeBundle opts (withCleanup unlink' deleteEmpty' env) plugin
                      statOrder uploadOrder files) =
            raised (closeBundle opts env plugin statOrder uploadOrder files)).
Proof.
  intros Hauto Hk Hbefore Hok Hunlink run.
  destruct (attemptsFrom_succeeding opts env task silentLogs R k Hok Hbefore
              (proj2 Hk) R 1) as [Hv He]; [lia|lia|].
  fold (uploadFileWithRetry opts env task silentLogs R) in Hv, He. fold run in Hv, He.
  destruct (tryUpload_ok opts env task k Hok) as [_ Heff].
  rewrite Hauto, Hunlink in Heff. rewrite Heff in He.
  split; [exact Hv|]. split; [now rewrite Hv|].
  split; [apply He; right; now left|].
  split; [apply He; right; right; now left|].
  split.
  - intros. unfold uploadFilesInBatches. now rewrite finished_cleanup.
  - intros. unfold closeBundle.
    destruct (negb (open opts) || negb (upload plugin) || buildFailed plugin
              || negb (resolvedConfig plugin)); [split; reflexivity|].
    destruct (length files =? 0); [split; reflexivity|].
    unfold uploadFilesInBatches. rewrite finished_cleanup. split; reflexivity.
Qed.

Lemma cleanup_failure_keeps_success_witness :
  autoDelete Demo.options = true
  /\ 1 <= 2 <= 3
  /\ (forall j, 1 <= j < 2 ->
        exists e', value (tryUpload Demo.options Demo.env Demo.big j) = Thrown e')
  /\ client Demo.env (request Demo.options Demo.big) 2 = Returned 200%Z
  /\ unlink Demo.env (UploadTask.filePath Demo.big) = Thrown (FsError "EPERM")
  /\ value (uploadFileWithRetry Demo.options Demo.env Demo.big false 3) =
     uploaded Demo.big 2
  /\ In (ConsoleWarn (DeleteLocalFailed "/dist/big.bin"))
        (effects (uploadFileWithRetry Demo.options Demo.env Demo.big false 3)).
Proof.
  assert (Hbefore : forall j, 1 <= j < 2 ->
            exists e', value (tryUpload Demo.options Demo.env Demo.big j) = Thrown e').
  { intros j Hj. assert (j = 1) as -> by lia. eexists. reflexivity. }
  split; [reflexivity|]. split; [lia|]. split; [exact Hbefore|].
  split; [reflexivity|]. split; [reflexivity|].
  destruct (cleanup_failure_keeps_success Demo.options Demo.env Demo.big false 3 2
              (FsError "EPERM") eq_refl ltac:(lia) Hbefore eq_refl eq_refl)
    as (Hv & _ & _ & Hwarn & _).
  split; [exact Hv|exact Hwarn].
Defined.

(** C1, as the code has it. For every batch of N candidates, every
    concurrency and every order of settlement, every worker returns and
    the array returned by [uploadFilesInBatches] has N entries: first the
    results of the candidates whose [stat] failed, in candidate order,
    then the result of every task, in the order in which the uploads
    settled. It is in the order of the candidates when no [stat] failed
    and the uploads settled in the order of the tasks. *)
Theorem uploadFilesInBatches_order opts env outDir ui statOrder uploadOrder files windowSize :
  let cs := map (candidateOf opts env outDir) files in
  let st := finished opts env outDir ui statOrder uploadOrder files windowSize in
  let out := uploadFilesInBatches opts env outDir ui statOrder uploadOrder files windowSize in
  Forall (fun wk => wk = Exited) (workers st)
  /\ length out = length files
  /\ out = statFailures cs ++ resultsAt opts env ui (tasksOf cs) (settled (trace st))
  /\ Permutation (settled (trace st)) (seq 0 (length (tasksOf cs)))
  /\ (statFailures cs = [] ->
      settled (trace st) = seq 0 (length (tasksOf cs)) ->
      out = map (resultOf opts env ui) cs).
Proof.
  intros cs st out.
  pose proof (finished_facts opts env outDir ui statOrder uploadOrder files windowSize) as H.
  cbv zeta in H. fold cs st in H.
  destruct H as (Hperm & Hres & _ & _ & _ & Hexited & _).
  change out with (results st).
  split; [now apply awaited_nil_exited|].
  assert (Htransfers : Permutation (resultsAt opts env ui (tasksOf cs) (settled (trace st)))
                                   (map (uploadResult opts env ui) (tasksOf cs))).
  { rewrite <- (resultsAt_seq opts env ui [] (tasksOf cs)).
    now apply resultsAt_perm. }
  assert (Hlen : length (results st) = length files).
  { apply Permutation_length in Htransfers. rewrite length_map in Htransfers.
    rewrite Hres, length_app, Htransfers.
    pose proof (length_candidates cs) as Hl. unfold cs in Hl at 3.
    rewrite length_map in Hl. exact Hl. }
  split; [exact Hlen|]. split; [exact Hres|]. split; [exact Hperm|].
  intros Hnone Hord. rewrite Hres, Hnone, Hord.
  pose proof (resultsAt_seq opts env ui [] (tasksOf cs)) as Hseq.
  cbn [app length] in Hseq. rewrite Hseq. cbn [app].
  clear -Hnone. induction cs as [|c cs IH]; [reflexivity|].
  destruct c as [task|e fp n]; [|discriminate].
  change (statFailures (WithTask task :: cs)) with (statFailures cs) in Hnone.
  change (tasksOf (WithTask task :: cs)) with (task :: tasksOf cs).
  cbn [map resultOf]. now rewrite IH.
Qed.

Lemma uploadFilesInBatches_order_witness :
  statFailures (map (candidateOf Demo.options Demo.env "/dist") ["a.js"; "c.js"]) = []
  /\ settled (trace (finished Demo.options Demo.env "/dist" false Demo.inOrder Demo.inOrder
                       ["a.js"; "c.js"] 2)) = seq 0 2
  /\ uploadFilesInBatches Demo.options Demo.env "/dist" false Demo.inOrder Demo.inOrder
       ["a.js"; "c.js"] 2 =
     map (resultOf Demo.options Demo.env false)
         (map (candidateOf Demo.options Demo.env "/dist") ["a.js"; "c.js"]).
Proof.
  assert (Hnone : statFailures (map (candidateOf Demo.options Demo.env "/dist")
                                    ["a.js"; "c.js"]) = []) by reflexivity.
  assert (Hord : settled (trace (finished Demo.options Demo.env "/dist" false Demo.inOrder
                                   Demo.inOrder ["a.js"; "c.js"] 2)) = seq 0 2)
    by (vm_compute; reflexivity).
  split; [exact Hnone|]. split; [exact Hord|].
  destruct (uploadFilesInBatches_order Demo.options Demo.env "/dist" false Demo.inOrder
              Demo.inOrder ["a.js"; "c.js"] 2) as (_ & _ & _ & _ & Hsame).
  exact (Hsame Hnone Hord).
Defined.

(** C1, as stated, fails on the order. With two readable files and two
    workers, the upload of the second file settling first puts its result
    first; with one worker, the result of an unreadable second file comes
    before the result of the first file. *)
Lemma results_not_in_candidate_order :
  (1 <= 2 <= length ["a.js"; "c.js"]
   /\ map UploadResult.file
        (uploadFilesInBatches Demo.options Demo.env "/dist" false
           Demo.inOrder Demo.latestFirst ["a.js"; "c.js"] 2)
      <> map (filePathOf Demo.env "/dist") ["a.js"; "c.js"])
  /\ (1 <= 1 <= length ["a.js"; "gone.js"]
      /\ map UploadResult.file
           (uploadFilesInBatches Demo.options Demo.env "/dist" false
              Demo.inOrder Demo.inOrder ["a.js"; "gone.js"] 1)
         <> map (filePathOf Demo.env "/dist") ["a.js"; "gone.js"]).
Proof.
  split; (split; [simpl; lia|]); vm_compute; discriminate.
Qed.

(** C2. For every candidate list the results returned are, up to order,
    exactly the one result of each candidate: the results of the failed
    [stat] calls followed by the results of the uploads of the tasks,
    nothing twice and nothing missing. A candidate whose [stat] fails has
    the result [success = false], [size = 0], [retries = 0], and every
    task handed to [uploadFileWithRetry] comes from a [stat] that
    succeeded. *)
Theorem one_result_per_candidate opts env outDir ui statOrder uploadOrder files windowSize :
  let cs := map (candidateOf opts env outDir) files in
  let st := finished opts env outDir ui statOrder uploadOrder files windowSize in
  let out := uploadFilesInBatches opts env outDir ui statOrder uploadOrder files windowSize in
  Permutation out (map (resultOf opts env ui) cs)
  /\ length out = length files
  /\ (exists transfers,
         out = statFailures cs ++ transfers
         /\ Permutation transfers (map (uploadResult opts env ui) (tasksOf cs)))
  /\ (forall f e,
         stat env (filePathOf env outDir f) = Thrown e ->
         let r := resultOf opts env ui (candidateOf opts env outDir f) in
         UploadResult.success r = false /\ UploadResult.size r = 0%N
         /\ UploadResult.retries r = 0 /\ UploadResult.error r = Some e
         /\ UploadResult.file r = filePathOf env outDir f)
  /\ (forall task,
         In task (handedOver (trace st)) ->
         stat env (UploadTask.filePath task) = Returned (UploadTask.size task)).
Proof.
  intros cs st out.
  pose proof (finished_facts opts env outDir ui statOrder uploadOrder files windowSize) as H.
  cbv zeta in H. fold cs st in H.
  destruct H as (Hperm & Hres & _ & _ & _ & _ & _ & ups & Htr & Hups & Hin).
  change out with (results st).
  assert (Htransfers : Permutation (resultsAt opts env ui (tasksOf cs) (settled (trace st)))
                                   (map (uploadResult opts env ui) (tasksOf cs))).
  { rewrite <- (resultsAt_seq opts env ui [] (tasksOf cs)).
    now apply resultsAt_perm. }
  assert (Hall : Permutation (results st) (map (resultOf opts env ui) cs)).
  { rewrite Hres. rewrite Htransfers. apply expected_perm. }
  split; [exact Hall|]. split.
  { rewrite (Permutation_length Hall). unfold cs. now rewrite !length_map. }
  split; [eexists; split; [exact Hres|exact Htransfers]|]. split.
  - intros f e Hstat. unfold candidateOf. rewrite Hstat. cbn. repeat split; reflexivity.
  - intros task Htask. rewrite Htr, handedOver_app in Htask.
    apply in_app_or in Htask. destruct Htask as [Htask|Htask].
    + rewrite (handedOver_stat_only _ (statPhase_stat_only env outDir statOrder files))
        in Htask. destruct Htask.
    + apply Hin in Htask. unfold cs, tasksOf in Htask. apply in_flat_map in Htask.
      destruct Htask as [c [Hc Hct]]. apply in_map_iff in Hc. destruct Hc as [f [<- _]].
      unfold candidateOf in Hct.
      destruct (stat env (filePathOf env outDir f)) as [size|e] eqn:Hstat; [|destruct Hct].
      destruct Hct as [<-|[]]. exact Hstat.
Qed.

(** C5, as the code has it. In every run the [stat] of every candidate is
    started before any of them settles, so as many lookups are in flight
    as there are candidates, whatever the concurrency; and all of them
    have settled before the first upload starts. *)
Theorem stat_phase_order opts env outDir ui statOrder uploadOrder files windowSize :
  let started := map (filePathOf env outDir) files in
  let tr := trace (finished opts env outDir ui statOrder uploadOrder files windowSize) in
  exists order ups,
    tr = map StatStart started ++ map StatSettle order ++ ups
    /\ Permutation order started
    /\ forallb isUploadEvent ups = true
    /\ peakStats 0 tr = length files.
Proof.
  intros started tr.
  pose proof (finished_facts opts env outDir ui statOrder uploadOrder files windowSize) as H.
  cbv zeta in H. destruct H as (_ & _ & _ & _ & _ & _ & _ & ups & Htr & Hups & _).
  fold tr in Htr. unfold statPhase in Htr. fold started in Htr.
  exists (settleOrder statOrder 0 (length started) started), ups.
  rewrite <- app_assoc in Htr.
  split; [exact Htr|]. split; [apply settleOrder_perm, Nat.le_refl|].
  split; [exact Hups|].
  rewrite Htr, peakStats_starts, peakStats_settles by exact Hups.
  unfold started. now rewrite length_map.
Qed.

(** C5, as stated, fails on the bound. With a concurrency of 1 and three
    candidates, three [stat] lookups are in flight at once. *)
Lemma stat_lookups_exceed_concurrency :
  peakStats 0
    (trace (finished Demo.options Demo.env "/dist" false Demo.inOrder Demo.inOrder
              ["a.js"; "big.bin"; "c.js"] 1)) = 3
  /\ ~ peakStats 0
         (trace (finished Demo.options Demo.env "/dist" false Demo.inOrder Demo.inOrder
                   ["a.js"; "big.bin"; "c.js"] 1)) <= 1.
Proof.
  assert (H : peakStats 0
    (trace (finished Demo.options Demo.env "/dist" false Demo.inOrder Demo.inOrder
              ["a.js"; "big.bin"; "c.js"] 1)) = 3) by (vm_compute; reflexivity).
  split; [exact H|]. rewrite H. lia.
Qed.

(** C6. From one step of a run to the next, over the loop on the
    candidates and then the settlements of the uploads, [completed] and
    [uploadedBytes] never decrease. The run ends, every worker having
    returned; then every task has been recorded exactly once, [completed] is the number N of candidates
    and [uploadedBytes] is the sum of the sizes of the results with
    [success = true]. *)
Theorem counters_monotone_and_final opts env outDir ui statOrder uploadOrder files windowSize :
  let run := stateAfter opts env outDir ui statOrder uploadOrder files windowSize in
  let final := finished opts env outDir ui statOrder uploadOrder files windowSize in
  (forall k,
      completed (run k) <= completed (run (S k))
      /\ (uploadedBytes (run k) <= uploadedBytes (run (S k)))%N)
  /\ (forall k, length files + length (tasks final) < k -> run k = final)
  /\ Forall (fun wk => wk = Exited) (workers final)
  /\ Permutation (settled (trace final)) (seq 0 (length (tasks final)))
  /\ completed final = length files
  /\ uploadedBytes final =
     fold_right N.add 0%N
       (map UploadResult.size (filter UploadResult.success (results final))).
Proof.
  intros run final.
  pose proof (finished_facts opts env outDir ui statOrder uploadOrder files windowSize) as H.
  cbv zeta in H. fold final in H.
  destruct H as (Hperm & _ & Htasks & Hcompleted & Hbytes & Hexited & _).
  pose proof (spawned_inv opts env outDir ui statOrder files windowSize) as Hsp.
  cbv zeta in Hsp. destruct Hsp as (HI & _ & Hs).
  destruct (sorted_facts opts env outDir statOrder files) as (_ & Ht & _).
  set (cs := map (candidateOf opts env outDir) files) in *.
  assert (Hcs : length cs = length files) by (unfold cs; apply length_map).
  split; [|split; [|split; [|split; [|split]]]].
  - intros k. unfold run, stateAfter. fold cs.
    destruct (Nat.leb_spec (S k) (length files)) as [Hle|Hgt].
    + replace (k <=? length files) with true by (symmetry; apply Nat.leb_le; lia).
      destruct (firstn_succ k cs) as [tl ->]. rewrite fold_left_app.
      pose proof (sortCandidates_facts tl
                    (fold_left sortCandidate (firstn k cs) (initial env outDir statOrder files)))
        as Hstep.
      cbv zeta in Hstep. destruct Hstep as (_ & _ & Hc & Hb & _).
      rewrite Hc, Hb. split; lia.
    + destruct (Nat.leb_spec k (length files)) as [Hle|Hgt'].
      * assert (k = length files) as -> by lia.
        replace (S (length files) - length files) with 1 by lia.
        rewrite <- Hcs, firstn_all.
        change (fold_left sortCandidate cs (initial env outDir statOrder files))
          with (sorted opts env outDir statOrder files).
        pose proof (drain_inv opts env ui _ _ _ uploadOrder 1 0 _ HI) as Hd.
        cbv zeta in Hd. destruct Hd as (_ & Hc & Hb & _).
        destruct (spawn_iter_counters
                    (safeWindowSize windowSize
                       (length (tasks (sorted opts env outDir statOrder files))))
                    (sorted opts env outDir statOrder files)) as [Hc0 Hb0].
        fold (spawned opts env outDir statOrder files windowSize) in Hc0, Hb0.
        rewrite <- Hc0, <- Hb0. split; assumption.
      * replace (S k - length files) with (S (k - length files)) by lia.
        apply (drain_succ opts env ui _ _ _ uploadOrder _ 0 _ HI).
  - intros k Hk. unfold run, stateAfter.
    replace (k <=? length files) with false by (symmetry; apply Nat.leb_gt; lia).
    unfold final, finished. rewrite (inv_tasks _ _ _ _ _ _ _ HI).
    rewrite Htasks, <- Ht in Hk.
    replace (k - length files)
      with ((k - length files - length (tasks (sorted opts env outDir statOrder files)))
            + length (tasks (sorted opts env outDir statOrder files))) by lia.
    apply (drain_enough opts env ui _ _ _ uploadOrder _ 0 _ HI). lia.
  - now apply awaited_nil_exited.
  - rewrite Htasks. exact Hperm.
  - exact Hcompleted.
  - rewrite Hbytes. apply sumSizes_filter.
Qed.

(** C7. When the handler runs the batch, no failure stops it: the results
    it collects are the one result of every candidate, failed or not. The
    decision to fail is taken once, after that: the handler throws if and
    only if [failedCount > 0] and the fail-on-error policy is on; and with
    the other policy it collects the same results and the same counts. *)
Theorem closeBundle_fail_on_error opts env plugin statOrder uploadOrder files summary thrown :
  closeBundle opts env plugin statOrder uploadOrder files = Completed summary thrown ->
  let cs := map (candidateOf opts env (outDir plugin)) files in
  (thrown <> None <-> 0 < failedCount summary /\ failOnError opts = true)
  /\ (thrown <> None ->
      thrown = Some (FailedToUpload (failedCount summary) (length files)))
  /\ allResults summary =
     uploadFilesInBatches opts env (outDir plugin) (useInteractiveOutput plugin)
       statOrder uploadOrder files (concurrency opts)
  /\ Permutation (allResults summary)
       (map (resultOf opts env (useInteractiveOutput plugin)) cs)
  /\ successCount summary + failedCount summary = length files
  /\ (forall b,
         collected (closeBundle (withFailOnError b opts) env plugin
                      statOrder uploadOrder files) =
         Some (allResults summary,
               (successCount summary, failedCount summary,
                uploadedTotal summary, retryCount summary))).
Proof.
  intros H cs.
  pose proof (results_perm_expected opts env (outDir plugin)
                (useInteractiveOutput plugin) statOrder uploadOrder files (concurrency opts))
    as Hperm.
  fold cs in Hperm.
  unfold closeBundle in H.
  destruct (negb (open opts) || negb (upload plugin) || buildFailed plugin
            || negb (resolvedConfig plugin)) eqn:Hgate; [discriminate|].
  destruct (length files =? 0) eqn:Hfiles; [discriminate|].
  injection H as <- <-.
  cbn [allResults successCount failedCount uploadedTotal retryCount].
  set (out := uploadFilesInBatches opts env (outDir plugin) (useInteractiveOutput plugin)
                statOrder uploadOrder files (concurrency opts)) in *.
  assert (Hlen : length out = length files).
  { rewrite (Permutation_length Hperm). unfold cs. now rewrite !length_map. }
  pose proof (filter_length_le UploadResult.success out) as Hle.
  split; [|split; [|split; [|split; [|split]]]].
  - destruct (Nat.ltb_spec 0 (length out - length (filter UploadResult.success out)))
      as [Hfc|Hfc];
      destruct (failOnError opts); cbn [andb];
      (split;
       [intros Hthrown; first [congruence|split; [lia|reflexivity]]
       |intros [Hpos Hfoe]; first [congruence|lia]]).
  - destruct (0 <? length out - length (filter UploadResult.success out));
      destruct (failOnError opts); cbn [andb]; intros Hthrown;
      first [now rewrite Hlen|exfalso; apply Hthrown; reflexivity].
  - reflexivity.
  - exact Hperm.
  - lia.
  - intros b. unfold closeBundle.
    change (open (withFailOnError b opts)) with (open opts).
    rewrite Hgate, Hfiles. cbn [collected allResults successCount failedCount
                                  uploadedTotal retryCount].
    change (concurrency (withFailOnError b opts)) with (concurrency opts).
    unfold uploadFilesInBatches. rewrite finished_failOnError. reflexivity.
Qed.

Lemma closeBundle_fail_on_error_witness :
  exists summary,
    closeBundle Demo.options Demo.env Demo.plugin Demo.inOrder Demo.latestFirst Demo.files
    = Completed summary (Some (FailedToUpload 2 5))
    /\ successCount summary = 3 /\ failedCount summary = 2
    /\ (Some (FailedToUpload 2 5) <> None
        <-> 0 < failedCount summary /\ failOnError Demo.options = true)
    /\ collected (closeBundle (withFailOnError false Demo.options) Demo.env Demo.plugin
                    Demo.inOrder Demo.latestFirst Demo.files) =
       Some (allResults summary,
             (successCount summary, failedCount summary,
              uploadedTotal summary, retryCount summary))
    /\ raised (closeBundle (withFailOnError false Demo.options) Demo.env Demo.plugin
                 Demo.inOrder Demo.latestFirst Demo.files) = None.
Proof.
  destruct (closeBundle Demo.options Demo.env Demo.plugin Demo.inOrder Demo.latestFirst
              Demo.files) as [| |summary thrown] eqn:Hrun;
    [vm_compute in Hrun; discriminate|vm_compute in Hrun; discriminate|].
  assert (Hthrown : thrown = Some (FailedToUpload 2 5)).
  { vm_compute in Hrun. injection Hrun as _ <-. reflexivity. }
  assert (Hs : successCount summary = 3 /\ failedCount summary = 2).
  { vm_compute in Hrun. injection Hrun as <- _. split; reflexivity. }
  subst thrown. exists summary.
  destruct (closeBundle_fail_on_error Demo.options Demo.env Demo.plugin Demo.inOrder
              Demo.latestFirst Demo.files summary _ Hrun) as (Hiff & _ & _ & _ & _ & Hsame).
  split; [reflexivity|]. split; [exact (proj1 Hs)|]. split; [exact (proj2 Hs)|].
  split; [exact Hiff|]. split; [exact (Hsame false)|].
  vm_compute. reflexivity.
Defined.

(** C10. When the [stat] of every candidate of a batch fails (the batch
    need not even be non-empty), the task list is empty and the run still
    ends: the pool has
    [max(1, min(concurrency, 0 || 1)) = 1] worker, which returns at
    once; no upload is started, so neither [put] nor [multipartUpload] is
    called; and the results are one failed entry per candidate, with size
    0 and 0 retries. *)
Theorem all_stats_fail opts env outDir ui statOrder uploadOrder files windowSize
    (err : string -> Error) :
  (forall f, In f files -> stat env (filePathOf env outDir f) = Thrown (err f)) ->
  let st := finished opts env outDir ui statOrder uploadOrder files windowSize in
  let out := uploadFilesInBatches opts env outDir ui statOrder uploadOrder files windowSize in
  tasks st = []
  /\ safeWindowSize windowSize (length (tasks st)) = 1
  /\ workers st = [Exited]
  /\ handedOver (trace st) = []
  /\ clientCalls opts env ui (trace st) = []
  /\ out = map (fun f => statFailed (err f) (filePathOf env outDir f)
                           (Key.normalizeObjectKey (paths env) (uploadDir opts) f))
               files
  /\ length out = length files
  /\ Forall (fun r => UploadResult.success r = false /\ UploadResult.size r = 0%N
                      /\ UploadResult.retries r = 0) out.
Proof.
  intros Hfail st out.
  set (cs := map (candidateOf opts env outDir) files).
  assert (Hcs : tasksOf cs = []
                /\ statFailures cs =
                   map (fun f => statFailed (err f) (filePathOf env outDir f)
                                   (Key.normalizeObjectKey (paths env) (uploadDir opts) f))
                       files).
  { unfold cs. clear -Hfail. induction files as [|f files IH]; [split; reflexivity|].
    destruct IH as [IHt IHs]; [intros g Hg; apply Hfail; now right|].
    cbn [map]. unfold candidateOf at 1 3. rewrite (Hfail f (or_introl eq_refl)).
    cbn [tasksOf statFailures flat_map app]. fold (tasksOf (map (candidateOf opts env outDir) files)).
    fold (statFailures (map (candidateOf opts env outDir) files)).
    rewrite IHt, IHs. split; reflexivity. }
  destruct Hcs as [Hnone Hall].
  destruct (sorted_facts opts env outDir statOrder files) as (Hr & Ht & _ & _ & Hi & Hw & Htr).
  fold cs in Hr, Ht. rewrite Hnone in Ht. rewrite Hall in Hr.
  assert (Hst : st = spawn (sorted opts env outDir statOrder files)).
  { unfold st, finished, spawned. rewrite Ht. cbn [length safeWindowSize Nat.eqb].
    replace (safeWindowSize windowSize 0) with 1
      by (unfold safeWindowSize; cbn [Nat.eqb]; lia).
    cbn [Nat.iter nat_rect].
    assert (Hts : tasks (spawn (sorted opts env outDir statOrder files)) = []).
    { unfold spawn, claim. rewrite Ht. destruct (currentIndex _); reflexivity. }
    rewrite Hts. reflexivity. }
  assert (Hclaim : claim (sorted opts env outDir statOrder files) =
                   ({| results := results (sorted opts env outDir statOrder files);
                       tasks := tasks (sorted opts env outDir statOrder files);
                       completed := completed (sorted opts env outDir statOrder files);
                       failed := failed (sorted opts env outDir statOrder files);
                       uploadedBytes := uploadedBytes (sorted opts env outDir statOrder files);
                       retries := retries (sorted opts env outDir statOrder files);
                       activeFiles := activeFiles (sorted opts env outDir statOrder files);
                       currentIndex := S (currentIndex (sorted opts env outDir statOrder files));
                       workers := workers (sorted opts env outDir statOrder files);
                       trace := trace (sorted opts env outDir statOrder files) |}, Exited)).
  { unfold claim. rewrite Ht. destruct (currentIndex _); reflexivity. }
  assert (Hfields : tasks st = [] /\ workers st = [Exited]
                    /\ trace st = statPhase env outDir statOrder files
                    /\ results st =
                       map (fun f => statFailed (err f) (filePathOf env outDir f)
                                       (Key.normalizeObjectKey (paths env) (uploadDir opts) f))
                           files).
  { rewrite Hst. unfold spawn. rewrite Hclaim. fields. rewrite Ht, Hw, Htr, Hr.
    split; [reflexivity|]. split; [reflexivity|]. split; reflexivity. }
  destruct Hfields as (Hts & Hws & Htrs & Hrs).
  assert (Hhanded : handedOver (trace st) = []).
  { rewrite Htrs. apply handedOver_stat_only, statPhase_stat_only. }
  split; [exact Hts|]. split.
  { rewrite Hts. unfold safeWindowSize. cbn [length Nat.eqb]. lia. }
  split; [exact Hws|]. split; [exact Hhanded|]. split.
  { unfold clientCalls. rewrite Hhanded. reflexivity. }
  change out with (results st). rewrite Hrs.
  split; [reflexivity|]. split; [apply length_map|].
  apply Forall_forall. intros r Hr'. apply in_map_iff in Hr'.
  destruct Hr' as [f [<- _]]. repeat split; reflexivity.
Qed.

Lemma all_stats_fail_witness :
  ["gone.js"] <> []
  /\ (forall f, In f ["gone.js"] ->
        stat Demo.env (filePathOf Demo.env "/dist" f) = Thrown (FsError "ENOENT"))
  /\ workers (finished Demo.options Demo.env "/dist" false Demo.inOrder Demo.inOrder
                ["gone.js"] 2) = [Exited]
  /\ clientCalls Demo.options Demo.env false
       (trace (finished Demo.options Demo.env "/dist" false Demo.inOrder Demo.inOrder
                 ["gone.js"] 2)) = []
  /\ uploadFilesInBatches Demo.options Demo.env "/dist" false Demo.inOrder Demo.inOrder
       ["gone.js"] 2 =
     [statFailed (FsError "ENOENT") "/dist/gone.js" "H5/zz/gone.js"].
Proof.
  assert (Hfail : forall f, In f ["gone.js"] ->
            stat Demo.env (filePathOf Demo.env "/dist" f) = Thrown (FsError "ENOENT")).
  { intros f [<-|[]]. reflexivity. }
  split; [discriminate|]. split; [exact Hfail|].
  destruct (all_stats_fail Demo.options Demo.env "/dist" false Demo.inOrder Demo.inOrder
              ["gone.js"] 2 (fun _ => FsError "ENOENT") Hfail)
    as (_ & _ & Hws & _ & Hcalls & Hout & _).
  split; [exact Hws|]. split; [exact Hcalls|exact Hout].
Defined.

(** * Further properties: the retry loop *)

Module RetryShape.
Import RetryFacts.

Lemma delays_bind {A B} (m : M A) (k : A -> M B) :
  delays (effects (bind m k)) = delays (effects m) ++ delays (effects (k (value m))).
Proof. rewrite effects_bind. apply flat_map_app. Qed.

Lemma unlinks_bind {A B} (m : M A) (k : A -> M B) :
  unlinks (effects (bind m k)) = unlinks (effects m) ++ unlinks (effects (k (value m))).
Proof. rewrite effects_bind. apply flat_map_app. Qed.

Lemma quiet_logUnlessSilent silent line :
  delays (effects (logUnlessSilent silent line)) = []
  /\ unlinks (effects (logUnlessSilent silent line)) = [].
Proof. now destruct silent. Qed.

(** One attempt: one call, no delay, and a removal exactly when the
    attempt returns and the auto-delete policy is on. *)
Lemma tryUpload_shape opts env task attempt :
  delays (effects (tryUpload opts env task attempt)) = []
  /\ match value (tryUpload opts env task attempt) with
     | Returned result =>
         result = uploaded task attempt
         /\ unlinks (effects (tryUpload opts env task attempt)) =
            if autoDelete opts then [UploadTask.filePath task] else []
     | Thrown _ => unlinks (effects (tryUpload opts env task attempt)) = []
     end.
Proof.
  unfold tryUpload.
  destruct (client env (request opts task) attempt) as [status|e]; [|split; reflexivity].
  destruct (status =? 200)%Z; [|split; reflexivity].
  destruct (autoDelete opts); [|repeat split; reflexivity].
  destruct (unlink env (UploadTask.filePath task)); repeat split; reflexivity.
Qed.

(** The loop from [attempt] on, whatever the client answers. *)
Lemma attemptsFrom_shape opts env task silent R :
  forall remaining attempt,
    attempt + remaining = S R -> 1 <= attempt -> 1 <= remaining ->
    let run := attemptsFrom opts env task silent R remaining attempt in
    let c := length (calls (effects run)) in
    1 <= c <= remaining
    /\ UploadResult.retries (value run) + 1 = attempt - 1 + c
    /\ delays (effects run) = map (fun k => 1000 * k) (seq attempt (c - 1))
    /\ unlinks (effects run) =
       (if UploadResult.success (value run) && autoDelete opts
        then [UploadTask.filePath task] else [])
    /\ (UploadResult.success (value run) = true <-> UploadResult.error (value run) = None).
Proof.
  induction remaining as [|r IH]; intros attempt Hsum Ha Hr; [lia|].
  cbv zeta. cbn [attemptsFrom].
  rewrite calls_bind, delays_bind, unlinks_bind, value_bind, tryUpload_calls.
  destruct (tryUpload_shape opts env task attempt) as [Hd Hv]. rewrite Hd.
  destruct (value (tryUpload opts env task attempt)) as [result|e].
  - destruct Hv as [-> Hu]. rewrite Hu. cbn [ret effects value fst snd calls delays unlinks
      flat_map app length uploaded UploadResult.retries UploadResult.success
      UploadResult.error andb seq map].
    rewrite app_nil_r. repeat split; try lia.
  - rewrite Hv. destruct (Nat.eqb_spec attempt R) as [->|Hne].
    + rewrite calls_bind, delays_bind, unlinks_bind, value_bind, calls_logUnlessSilent.
      destruct (quiet_logUnlessSilent silent (UploadGaveUp (UploadTask.filePath task) e))
        as [-> ->].
      cbn [ret effects value fst snd calls delays unlinks flat_map app length
           UploadResult.retries UploadResult.success UploadResult.error andb seq map].
      repeat split; try lia; discriminate.
    + pose proof (IH (S attempt)) as IH'. cbv zeta in IH'.
      destruct IH' as (Hc & Hret & Hdel & Hun & Hiff); [lia|lia|lia|].
      rewrite !calls_bind, !delays_bind, !unlinks_bind, !value_bind, calls_logUnlessSilent.
      destruct (quiet_logUnlessSilent silent
                  (UploadRetrying (UploadTask.filePath task) attempt R)) as [-> ->].
      change (calls (effects (perform (Sleep (1000 * attempt))))) with (@nil Request).
      change (delays (effects (perform (Sleep (1000 * attempt))))) with [1000 * attempt].
      change (unlinks (effects (perform (Sleep (1000 * attempt))))) with (@nil string).
      cbn [app length].
      set (rest := attemptsFrom opts env task silent R r (S attempt)) in *.
      split; [lia|]. split; [lia|]. split.
      * rewrite Hdel. replace (S (length (calls (effects rest))) - 1)
          with (S (length (calls (effects rest)) - 1)) by lia.
        reflexivity.
      * split; [exact Hun|exact Hiff].
Qed.

End RetryShape.

Import RetryShape.

(** X1. Whatever the client answers, [uploadFileWithRetry] with
    [maxRetries = R >= 1] calls the client at least once and at most R
    times, always with the same request; the [retries] of its result is
    the number of calls minus one, and the delays it waited are exactly
    [1000 * 1, ..., 1000 * retries], one after each attempt but the last.
    The result carries the path, the key and the size of the task, and it
    has an error exactly when it is not a success. *)
Theorem uploadFileWithRetry_shape opts env task silentLogs R :
  1 <= R ->
  let run := uploadFileWithRetry opts env task silentLogs R in
  1 <= length (calls (effects run)) <= R
  /\ (forall req, In req (calls (effects run)) -> req = request opts task)
  /\ UploadResult.retries (value run) + 1 = length (calls (effects run))
  /\ delays (effects run) =
     map (fun k => 1000 * k) (seq 1 (UploadResult.retries (value run)))
  /\ UploadResult.file (value run) = UploadTask.filePath task
  /\ UploadResult.name (value run) = UploadTask.name task
  /\ UploadResult.size (value run) = UploadTask.size task
  /\ (UploadResult.success (value run) = true <-> UploadResult.error (value run) = None).
Proof.
  intros HR run.
  pose proof (attemptsFrom_shape opts env task silentLogs R R 1) as H. cbv zeta in H.
  destruct H as (Hc & Hret & Hdel & _ & Hiff); [lia|lia|lia|].
  fold (uploadFileWithRetry opts env task silentLogs R) in Hc, Hret, Hdel, Hiff.
  fold run in Hc, Hret, Hdel, Hiff.
  split; [exact Hc|]. split; [intros req; apply RetryFacts.attemptsFrom_calls|].
  split; [lia|]. split.
  { rewrite Hdel. f_equal. f_equal. lia. }
  assert (Hid : forall remaining attempt,
             let r := value (attemptsFrom opts env task silentLogs R remaining attempt) in
             UploadResult.file r = UploadTask.filePath task
             /\ UploadResult.name r = UploadTask.name task
             /\ UploadResult.size r = UploadTask.size task).
  { induction remaining as [|n IH]; intros attempt; cbv zeta; [repeat split|].
    cbn [attemptsFrom]. rewrite RetryFacts.value_bind.
    destruct (tryUpload_shape opts env task attempt) as [_ Hv].
    destruct (value (tryUpload opts env task attempt)) as [result|e].
    - destruct Hv as [-> _]. repeat split.
    - destruct (attempt =? R).
      + rewrite RetryFacts.value_bind. repeat split.
      + rewrite !RetryFacts.value_bind. apply IH. }
  destruct (Hid R 1) as (Hf & Hn & Hs).
  split; [exact Hf|]. split; [exact Hn|]. split; [exact Hs|exact Hiff].
Qed.

Lemma uploadFileWithRetry_shape_witness :
  1 <= 3
  /\ length (calls (effects (uploadFileWithRetry Demo.options Demo.env Demo.big false 3))) = 2
  /\ UploadResult.retries (value (uploadFileWithRetry Demo.options Demo.env Demo.big false 3))
     = 1
  /\ delays (effects (uploadFileWithRetry Demo.options Demo.env Demo.big false 3)) = [1000].
Proof.
  destruct (uploadFileWithRetry_shape Demo.options Demo.env Demo.big false 3 ltac:(lia))
    as (_ & _ & Hret & Hdel & _).
  split; [lia|]. split; [vm_compute; reflexivity|]. split; [reflexivity|].
  rewrite Hdel. reflexivity.
Defined.

(** X2. [uploadFileWithRetry] removes the local file only after an upload
    that succeeded and only under the auto-delete policy: it then tries
    the removal once, on the file of the task; a failed upload, or a run
    without the policy, never touches the local file. *)
Theorem uploadFileWithRetry_unlinks opts env task silentLogs R :
  let run := uploadFileWithRetry opts env task silentLogs R in
  unlinks (effects run) =
  if UploadResult.success (value run) && autoDelete opts
  then [UploadTask.filePath task] else [].
Proof.
  intros run. destruct R as [|R].
  - reflexivity.
  - pose proof (attemptsFrom_shape opts env task silentLogs (S R) (S R) 1) as H.
    cbv zeta in H. destruct H as (_ & _ & _ & Hun & _); [lia|lia|lia|]. exact Hun.
Qed.

(** * Further properties: the pool of workers *)

Module PoolMore.
Import PoolFacts BatchFacts TraceFacts.

Lemma firstn_S_nth {A} (l : list A) n :
  firstn (S n) l = firstn n l ++ match nth_error l n with Some x => [x] | None => [] end.
Proof.
  revert n. induction l as [|x l IH]; intros [|n]; try reflexivity.
  change (firstn (S (S n)) (x :: l)) with (x :: firstn (S n) l).
  rewrite IH. reflexivity.
Qed.

Lemma sumRetries_snoc rs r : sumRetries (rs ++ [r]) = sumRetries rs + UploadResult.retries r.
Proof. unfold sumRetries. rewrite fold_left_app. reflexivity. Qed.

Lemma awaitedNames_app T ws ws' :
  awaitedNames T (ws ++ ws') = awaitedNames T ws ++ awaitedNames T ws'.
Proof. unfold awaitedNames. rewrite awaited_app. apply flat_map_app. Qed.

Lemma length_awaited ws : length (awaited ws) <= length ws.
Proof. induction ws as [|[i|] ws IH]; simpl; lia. Qed.

Lemma length_setWorker w wk ws : length (setWorker w wk ws) = length ws.
Proof.
  revert w. induction ws as [|x ws IH]; intros [|w]; simpl; auto.
Qed.

Lemma setAdd_NoDup x s : NoDup s -> NoDup (setAdd x s).
Proof.
  intros H. unfold setAdd. destruct (existsb (String.eqb x) s) eqn:E; [exact H|].
  apply NoDup_app; [exact H|repeat constructor; intros []|].
  intros y Hy [Hxy|[]]. subst y.
  assert (existsb (String.eqb x) s = true) as E'
    by (apply existsb_exists; exists x; split; [exact Hy|apply String.eqb_refl]).
  congruence.
Qed.

Lemma setAdd_incl x s l : incl s l -> incl (setAdd x s) (l ++ [x]).
Proof.
  intros H y Hy. unfold setAdd in Hy. apply in_or_app.
  destruct (existsb (String.eqb x) s); [left; now apply H|].
  apply in_app_or in Hy. destruct Hy as [Hy|Hy]; [left; now apply H|now right].
Qed.

Lemma setDelete_In x y s : In y (setDelete x s) <-> In y s /\ y <> x.
Proof.
  unfold setDelete. rewrite filter_In. split; intros [Hin Hne]; split; auto.
  - intros ->. now rewrite String.eqb_refl in Hne.
  - destruct (String.eqb_spec x y); [congruence|reflexivity].
Qed.

(** Pending and peak numbers of uploads when events are added. *)
Lemma pendingUploads_app tr tr' :
  forall p, pendingUploads p (tr ++ tr') = pendingUploads (pendingUploads p tr) tr'.
Proof.
  induction tr as [|ev tr IH]; intros p; [reflexivity|].
  destruct ev; cbn [app pendingUploads]; apply IH.
Qed.

Lemma peakUploads_app tr tr' :
  forall p,
    peakUploads p (tr ++ tr') =
    Nat.max (peakUploads p tr) (peakUploads (pendingUploads p tr) tr').
Proof.
  induction tr as [|ev tr IH]; intros p.
  - cbn [app peakUploads pendingUploads].
    assert (H : forall tr0 q, q <= peakUploads q tr0).
    { induction tr0 as [|e tr0 IHt]; intros q; [apply Nat.le_refl|].
      destruct e; cbn [peakUploads]; try apply IHt; lia. }
    pose proof (H tr' p). lia.
  - destruct ev; cbn [app peakUploads pendingUploads]; rewrite IH; lia.
Qed.

Lemma uploads_stat_only tr :
  forallb (fun ev => negb (isUploadEvent ev)) tr = true ->
  forall p, pendingUploads p tr = p /\ peakUploads p tr = p.
Proof.
  induction tr as [|ev tr IH]; intros H p; [split; reflexivity|].
  cbn [forallb] in H. apply andb_prop in H. destruct H as [Hev Htr].
  destruct ev; try discriminate; cbn [pendingUploads peakUploads]; now apply IH.
Qed.

Section Invariant2.
Variable opts : Options.
Variable env : Env.
Variable ui : bool.
Variable T : list UploadTask.t.
Variable P : list UploadResult.t.
Variable tr0 : list Event.
Variable n : nat.

Local Abbreviation Inv := (PoolInv opts env ui T P tr0).
Local Abbreviation Inv2 := (PoolInv2 T n).

(** What the head of the worker loop does, case by case. *)
Lemma claim_cases st st' wk :
  tasks st = T -> claim st = (st', wk) ->
  results st' = results st /\ failed st' = failed st /\ retries st' = retries st
  /\ workers st' = workers st /\ currentIndex st' = S (currentIndex st)
  /\ match nth_error T (currentIndex st) with
     | Some task =>
         wk = Awaiting (currentIndex st)
         /\ activeFiles st' = setAdd (UploadTask.name task) (activeFiles st)
         /\ trace st' = trace st ++ [UploadStart (currentIndex st) task]
     | None =>
         wk = Exited /\ activeFiles st' = activeFiles st /\ trace st' = trace st
     end.
Proof.
  intros HT. unfold claim. rewrite HT.
  destruct (nth_error T (currentIndex st)) as [task|];
    intros H; injection H as <- <-; fields; repeat split; reflexivity.
Qed.

Lemma resume_inv2 w st st' :
  Inv st -> Inv2 st -> resume opts env ui w st = Some st' -> Inv2 st'.
Proof.
  intros HI [Hf Hr Hh Hnd Hincl Hw Hpend Hpeak].
  pose proof (inv_tasks _ _ _ _ _ _ _ HI) as HT.
  unfold resume.
  destruct (nth_error (workers st) w) as [[index|]|] eqn:Hnth; try discriminate.
  destruct (nth_error (tasks st) index) as [task|] eqn:Htask; [|discriminate].
  set (result := value (uploadFileWithRetry opts env task (silentLogs ui) (retryTimes opts))).
  destruct (claim (record index task result st)) as [st1 wk] eqn:Hclaim.
  intros H. injection H as <-.
  destruct (claim_cases (record index task result st) st1 wk HT Hclaim)
    as (Hres & Hfail & Hret & Hws & Hci & Hcase).
  cbn [record results failed retries workers currentIndex activeFiles trace]
    in Hres, Hfail, Hret, Hws, Hci, Hcase.
  destruct (setWorker_split (workers st) w (Awaiting index) wk Hnth) as [l1 [l2 [Hsplit Hsetw]]].
  rewrite HT in Htask.
  assert (Holdnames : awaitedNames T (workers st) =
                      awaitedNames T l1 ++ [UploadTask.name task] ++ awaitedNames T l2).
  { rewrite Hsplit. change (Awaiting index :: l2) with ([Awaiting index] ++ l2).
    rewrite !awaitedNames_app. unfold awaitedNames at 2. cbn [awaited flat_map app].
    now rewrite Htask. }
  assert (Hdel : incl (setDelete (UploadTask.name task) (activeFiles st))
                      (awaitedNames T l1 ++ awaitedNames T l2)).
  { intros y Hy. apply setDelete_In in Hy. destruct Hy as [Hy Hne].
    apply Hincl in Hy. rewrite Holdnames in Hy.
    apply in_app_or in Hy. apply in_or_app. destruct Hy as [Hy|Hy]; [now left|].
    apply in_app_or in Hy. destruct Hy as [[Hy|[]]|Hy]; [congruence|now right]. }
  assert (Hpend1 : pendingUploads 0 (trace st ++ [UploadSettle index]) =
                   length (awaited l1) + length (awaited l2)).
  { rewrite pendingUploads_app, Hpend, Hsplit.
    change (Awaiting index :: l2) with ([Awaiting index] ++ l2).
    rewrite !awaited_app, !length_app. cbn. lia. }
  assert (Hpeak1 : peakUploads 0 (trace st ++ [UploadSettle index]) <= n).
  { rewrite peakUploads_app, Hpend. cbn [peakUploads].
    pose proof (length_awaited (workers st)). lia. }
  assert (Hlen : length (workers st) = S (length l1 + length l2)).
  { rewrite Hsplit, length_app. cbn. lia. }
  pose proof (length_awaited l1). pose proof (length_awaited l2).
  constructor; fields.
  - rewrite Hfail, Hres, filter_app, length_app. cbn [filter].
    destruct (UploadResult.success result); cbn; lia.
  - rewrite Hret, Hres, sumRetries_snoc. lia.
  - rewrite Hci, firstn_S_nth, <- Hh.
    destruct (nth_error T (currentIndex st)) as [t|]; destruct Hcase as (_ & _ & ->);
      rewrite ?handedOver_app; cbn; rewrite ?app_nil_r; reflexivity.
  - destruct (nth_error T (currentIndex st)) as [t|]; destruct Hcase as (_ & -> & _).
    + apply setAdd_NoDup, NoDup_filter, Hnd.
    + apply NoDup_filter, Hnd.
  - rewrite Hws, Hsetw. change (wk :: l2) with ([wk] ++ l2). rewrite !awaitedNames_app.
    destruct (nth_error T (currentIndex st)) as [t|] eqn:Et; destruct Hcase as (-> & -> & _).
    + unfold awaitedNames at 2. cbn [awaited flat_map app]. rewrite Et.
      intros y Hy. apply (setAdd_incl _ _ _ Hdel) in Hy.
      apply in_app_or in Hy. apply in_or_app. destruct Hy as [Hy|Hy].
      * apply in_app_or in Hy. destruct Hy; [now left|right; apply in_or_app; now right].
      * right. apply in_or_app. now left.
    + intros y Hy. apply Hdel in Hy. apply in_app_or in Hy. apply in_or_app.
      destruct Hy; [now left|right; apply in_or_app; now right].
  - rewrite Hws, length_setWorker. exact Hw.
  - rewrite Hws, Hsetw. change (wk :: l2) with ([wk] ++ l2). rewrite !awaited_app, !length_app.
    destruct (nth_error T (currentIndex st)) as [t|]; destruct Hcase as (-> & _ & ->).
    + rewrite pendingUploads_app, Hpend1. cbn. lia.
    + rewrite Hpend1. cbn. lia.
  - destruct (nth_error T (currentIndex st)) as [t|]; destruct Hcase as (_ & _ & ->);
      [|exact Hpeak1].
    rewrite peakUploads_app, Hpend1. cbn [peakUploads]. lia.
Qed.

Lemma spawn_inv2 st :
  Inv st -> Inv2 st -> length (workers st) < n -> Inv2 (spawn st).
Proof.
  intros HI [Hf Hr Hh Hnd Hincl Hw Hpend Hpeak] Hroom.
  pose proof (inv_tasks _ _ _ _ _ _ _ HI) as HT.
  unfold spawn. destruct (claim st) as [st1 wk] eqn:Hclaim.
  destruct (claim_cases st st1 wk HT Hclaim) as (Hres & Hfail & Hret & Hws & Hci & Hcase).
  pose proof (length_awaited (workers st)).
  constructor; fields.
  - now rewrite Hfail, Hres.
  - now rewrite Hret, Hres.
  - rewrite Hci, firstn_S_nth, <- Hh.
    destruct (nth_error T (currentIndex st)) as [t|]; destruct Hcase as (_ & _ & ->);
      rewrite ?handedOver_app; cbn; rewrite ?app_nil_r; reflexivity.
  - destruct (nth_error T (currentIndex st)) as [t|]; destruct Hcase as (_ & -> & _);
      [now apply setAdd_NoDup|exact Hnd].
  - rewrite Hws, awaitedNames_app.
    destruct (nth_error T (currentIndex st)) as [t|] eqn:Et; destruct Hcase as (-> & -> & _).
    + unfold awaitedNames at 2. cbn [awaited flat_map app]. rewrite Et.
      now apply setAdd_incl.
    + intros y Hy. apply in_or_app. left. now apply Hincl.
  - rewrite Hws, length_app. cbn. lia.
  - rewrite Hws, awaited_app, length_app.
    destruct (nth_error T (currentIndex st)) as [t|]; destruct Hcase as (-> & _ & ->).
    + rewrite pendingUploads_app, Hpend. cbn. lia.
    + rewrite Hpend. cbn. lia.
  - destruct (nth_error T (currentIndex st)) as [t|]; destruct Hcase as (_ & _ & ->);
      [|exact Hpeak].
    rewrite peakUploads_app, Hpend. cbn [peakUploads]. lia.
Qed.

Lemma spawn_iter_inv2 k st :
  Inv st -> Inv2 st -> length (workers st) + k <= n ->
  Inv2 (Nat.iter k spawn st) /\ length (workers (Nat.iter k spawn st)) = length (workers st) + k.
Proof.
  intros HI HI2. induction k as [|k IH]; intros Hk; [split; [exact HI2|simpl; lia]|].
  change (Nat.iter (S k) spawn st) with (spawn (Nat.iter k spawn st)).
  destruct IH as [IH2 IHl]; [lia|]. split.
  - apply spawn_inv2; [now apply spawn_iter_inv|exact IH2|lia].
  - unfold spawn at 1. destruct (claim (Nat.iter k spawn st)) as [st1 wk] eqn:Hclaim. fields.
    pose proof (spawn_iter_inv opts env ui T P tr0 k st HI) as HIk.
    destruct (claim_cases _ st1 wk (inv_tasks _ _ _ _ _ _ _ HIk) Hclaim)
      as (_ & _ & _ & Hws & _).
    rewrite Hws, length_app, IHl. cbn. lia.
Qed.

Lemma drain_inv2 uploadOrder fuel :
  forall step st,
    Inv st -> Inv2 st -> Inv2 (drain opts env ui uploadOrder fuel step st).
Proof.
  induction fuel as [|fuel IH]; intros step st HI HI2; [exact HI2|].
  cbn [drain]. destruct (inflight (workers st)) as [|first rest]; [exact HI2|].
  destruct (resume opts env ui _ st) as [st1|] eqn:Hst1; [|exact HI2].
  apply IH.
  - eapply resume_inv; eauto.
  - eapply resume_inv2; eauto.
Qed.

End Invariant2.

End PoolMore.

(** * Further properties: a run of uploadFilesInBatches *)

Module RunMore.
Import PoolFacts BatchFacts TraceFacts PoolMore.

Lemma filter_split_length {A} (f : A -> bool) l :
  length (filter f l) + length (filter (fun x => negb (f x)) l) = length l.
Proof. induction l as [|x l IH]; [reflexivity|]. simpl. destruct (f x); simpl; lia. Qed.

Lemma length_awaitedNames T ws : length (awaitedNames T ws) <= length (awaited ws).
Proof.
  unfold awaitedNames. induction (awaited ws) as [|i l IH]; [apply Nat.le_refl|].
  cbn [flat_map]. rewrite length_app. destruct (nth_error T i); simpl in *; lia.
Qed.

Section Run2.
Variable opts : Options.
Variable env : Env.
Variable outDir : string.
Variable ui : bool.

Local Abbreviation cands files := (map (candidateOf opts env outDir) files).

(** The loop over the candidates, for the fields [sortCandidates_facts]
    leaves out. *)
Lemma sortCandidates_more cs :
  forall st,
    let st' := fold_left sortCandidate cs st in
    failed st' = failed st + length (statFailures cs)
    /\ retries st' = retries st
    /\ activeFiles st' = activeFiles st.
Proof.
  induction cs as [|c cs IH]; intros st; cbv zeta.
  - cbn. repeat split; lia.
  - cbn [fold_left]. pose proof (IH (sortCandidate st c)) as H. cbv zeta in H.
    destruct H as (Hf & Hr & Ha). rewrite Hf, Hr, Ha.
    destruct c as [task|e fp nm].
    + change (statFailures (WithTask task :: cs)) with (statFailures cs).
      cbn [sortCandidate]; fields. repeat split; reflexivity.
    + change (statFailures (WithoutTask e fp nm :: cs))
        with (statFailed e fp nm :: statFailures cs).
      cbn [sortCandidate]; fields. cbn [length]. repeat split; try reflexivity; lia.
Qed.

Lemma statFailures_failed cs :
  filter (fun r => negb (UploadResult.success r)) (statFailures cs) = statFailures cs
  /\ sumRetries (statFailures cs) = 0.
Proof.
  induction cs as [|c cs [IHf IHr]]; [split; reflexivity|].
  destruct c as [task|e fp nm]; [split; assumption|].
  change (statFailures (WithoutTask e fp nm :: cs))
    with (statFailed e fp nm :: statFailures cs).
  split.
  - cbn [filter statFailed UploadResult.success negb]. now rewrite IHf.
  - unfold sumRetries in *. cbn [fold_left statFailed UploadResult.retries]. exact IHr.
Qed.

(** The state after [k] iterations of the loop over the candidates. *)
Lemma partial_sort_facts statOrder files k :
  let st := fold_left sortCandidate (firstn k (cands files)) (initial env outDir statOrder files) in
  workers st = [] /\ activeFiles st = []
  /\ trace st = statPhase env outDir statOrder files.
Proof.
  cbv zeta.
  pose proof (sortCandidates_facts (firstn k (cands files))
                (initial env outDir statOrder files)) as H.
  pose proof (sortCandidates_more (firstn k (cands files))
                (initial env outDir statOrder files)) as H'.
  cbv zeta in H, H'. destruct H as (_ & _ & _ & _ & _ & Hw & Htr). destruct H' as (_ & _ & Ha).
  split; [exact Hw|]. split; [exact Ha|exact Htr].
Qed.

Lemma sorted_inv2 statOrder files n :
  let st := sorted opts env outDir statOrder files in
  PoolInv2 (tasks st) n st.
Proof.
  cbv zeta. destruct (sorted_facts opts env outDir statOrder files)
    as (Hr & Ht & Hc & Hb & Hi & Hw & Htr).
  pose proof (sortCandidates_more (cands files) (initial env outDir statOrder files)) as H.
  cbv zeta in H. destruct H as (Hf & Hret & Ha).
  fold (sorted opts env outDir statOrder files) in Hf, Hret, Ha.
  destruct (statFailures_failed (cands files)) as [Hall Hzero].
  pose proof (statPhase_stat_only env outDir statOrder files) as Hstat.
  destruct (uploads_stat_only _ Hstat 0) as [Hpend Hpeak].
  constructor.
  - rewrite Hf, Hr, Hall. reflexivity.
  - rewrite Hret, Hr, Hzero. reflexivity.
  - rewrite Htr, Hi. now apply handedOver_stat_only.
  - rewrite Ha. constructor.
  - rewrite Ha. intros y [].
  - rewrite Hw. cbn. lia.
  - rewrite Htr, Hw, Hpend. reflexivity.
  - rewrite Htr, Hpeak. lia.
Qed.

(** Both invariants hold in the state in which the run ends, with as
    many workers as [safeWindowSize] says. *)
Lemma finished_invs statOrder uploadOrder files windowSize :
  let st0 := sorted opts env outDir statOrder files in
  let n := safeWindowSize windowSize (length (tasks st0)) in
  let st := finished opts env outDir ui statOrder uploadOrder files windowSize in
  PoolInv opts env ui (tasks st0) (results st0) (trace st0) st
  /\ PoolInv2 (tasks st0) n st
  /\ awaited (workers st) = []
  /\ length (tasks st0) <= currentIndex st.
Proof.
  cbv zeta.
  pose proof (spawned_inv opts env outDir ui statOrder files windowSize) as Hsp.
  cbv zeta in Hsp. destruct Hsp as (HI & Hne & Hs).
  pose proof (sorted_inv opts env outDir ui statOrder files) as HI0. cbv zeta in HI0.
  pose proof (sorted_inv2 statOrder files
                (safeWindowSize windowSize
                   (length (tasks (sorted opts env outDir statOrder files))))) as HI20.
  cbv zeta in HI20.
  destruct (sorted_facts opts env outDir statOrder files) as (_ & _ & _ & _ & _ & Hw & _).
  destruct (spawn_iter_inv2 opts env ui _ _ _ _
              (safeWindowSize windowSize
                 (length (tasks (sorted opts env outDir statOrder files))))
              _ HI0 HI20) as [HI2 _]; [rewrite Hw; cbn; lia|].
  fold (spawned opts env outDir statOrder files windowSize) in HI2.
  pose proof (drain_inv opts env ui _ _ _ uploadOrder
                (length (tasks (spawned opts env outDir statOrder files windowSize)))
                0 _ HI) as Hd.
  cbv zeta in Hd. destruct Hd as (HF & _ & _ & HneF & Hdone).
  fold (finished opts env outDir ui statOrder uploadOrder files windowSize) in HF, HneF, Hdone.
  assert (Haw : awaited (workers (finished opts env outDir ui statOrder uploadOrder files
                                    windowSize)) = []).
  { apply Hdone. rewrite (inv_tasks _ _ _ _ _ _ _ HI). lia. }
  split; [exact HF|]. split.
  - unfold finished. exact (drain_inv2 opts env ui _ _ _ _ uploadOrder _ _ _ HI HI2).
  - split; [exact Haw|].
    apply (inv_exited _ _ _ _ _ _ _ HF). apply all_exited; [now apply HneF|exact Haw].
Qed.

(** Both invariants hold after every step of the upload phase. *)
Lemma draining_invs statOrder uploadOrder files windowSize fuel :
  let st0 := sorted opts env outDir statOrder files in
  let n := safeWindowSize windowSize (length (tasks st0)) in
  let st := drain opts env ui uploadOrder fuel 0
              (spawned opts env outDir statOrder files windowSize) in
  PoolInv opts env ui (tasks st0) (results st0) (trace st0) st
  /\ PoolInv2 (tasks st0) n st.
Proof.
  cbv zeta.
  pose proof (spawned_inv opts env outDir ui statOrder files windowSize) as Hsp.
  cbv zeta in Hsp. destruct Hsp as (HI & _ & _).
  pose proof (sorted_inv opts env outDir ui statOrder files) as HI0. cbv zeta in HI0.
  pose proof (sorted_inv2 statOrder files
                (safeWindowSize windowSize
                   (length (tasks (sorted opts env outDir statOrder files))))) as HI20.
  cbv zeta in HI20.
  destruct (sorted_facts opts env outDir statOrder files) as (_ & _ & _ & _ & _ & Hw & _).
  destruct (spawn_iter_inv2 opts env ui _ _ _ _
              (safeWindowSize windowSize
                 (length (tasks (sorted opts env outDir statOrder files))))
              _ HI0 HI20) as [HI2 _]; [rewrite Hw; cbn; lia|].
  fold (spawned opts env outDir statOrder files windowSize) in HI2.
  split.
  - pose proof (drain_inv opts env ui _ _ _ uploadOrder fuel 0 _ HI) as Hd.
    cbv zeta in Hd. tauto.
  - exact (drain_inv2 opts env ui _ _ _ _ uploadOrder _ _ _ HI HI2).
Qed.

Lemma uploadFilesInBatches_length statOrder uploadOrder files windowSize :
  length (uploadFilesInBatches opts env outDir ui statOrder uploadOrder files windowSize)
  = length files.
Proof.
  rewrite (Permutation_length
             (results_perm_expected opts env outDir ui statOrder uploadOrder files windowSize)).
  now rewrite !length_map.
Qed.

End Run2.

End RunMore.

Module PermFacts.
Import TraceFacts.






End PermFacts.

Import PoolFacts BatchFacts TraceFacts PoolMore RunMore.

(** X3. In every run, whatever the schedule, the number of uploads
    started and not yet settled never exceeds the number of workers,
    [max(1, min(windowSize, tasks.length || 1))], which is at most the
    window size (when that is at least 1) and at most the number of
    tasks (when there is one); and when the run ends no upload is
    pending. *)
Theorem uploads_in_flight_bounded opts env outDir ui statOrder uploadOrder files windowSize :
  let final := finished opts env outDir ui statOrder uploadOrder files windowSize in
  let n := safeWindowSize windowSize (length (tasks final)) in
  peakUploads 0 (trace final) <= n
  /\ pendingUploads 0 (trace final) = 0
  /\ 1 <= n /\ n <= Nat.max 1 windowSize /\ n <= Nat.max 1 (length (tasks final))
  /\ (forall k,
         length (awaited (workers
                   (stateAfter opts env outDir ui statOrder uploadOrder files windowSize k)))
         <= n).
Proof.
  cbv zeta.
  pose proof (finished_invs opts env outDir ui statOrder uploadOrder files windowSize) as H.
  cbv zeta in H. destruct H as (HI & HI2 & Haw & _).
  rewrite (inv_tasks _ _ _ _ _ _ _ HI).
  split; [exact (inv2_peak _ _ _ HI2)|].
  split; [rewrite (inv2_pending _ _ _ HI2), Haw; reflexivity|].
  split; [unfold safeWindowSize; lia|].
  split; [unfold safeWindowSize; lia|].
  split.
  { unfold safeWindowSize.
    destruct (length (tasks (sorted opts env outDir statOrder files))); cbn [Nat.eqb]; lia. }
  intros k. unfold stateAfter.
  destruct (k <=? length files).
  - destruct (partial_sort_facts opts env outDir statOrder files k) as (-> & _). cbn. lia.
  - pose proof (draining_invs opts env outDir ui statOrder uploadOrder files windowSize
                  (k - length files)) as Hd.
    cbv zeta in Hd. destruct Hd as [_ Hd2].
    pose proof (inv2_workers _ _ _ Hd2).
    pose proof (length_awaited (workers
                  (drain opts env ui uploadOrder (k - length files) 0
                     (spawned opts env outDir statOrder files windowSize)))).
    lia.
Qed.

(** X4. After every step of a run the set [activeFiles] holds only keys
    of uploads that are in flight, so it never has more elements than
    there are uploads in flight; and it is empty when the run ends. *)
Theorem activeFiles_in_flight opts env outDir ui statOrder uploadOrder files windowSize :
  let final := finished opts env outDir ui statOrder uploadOrder files windowSize in
  (forall k,
      let st := stateAfter opts env outDir ui statOrder uploadOrder files windowSize k in
      NoDup (activeFiles st)
      /\ incl (activeFiles st) (awaitedNames (tasks final) (workers st))
      /\ length (activeFiles st) <= length (awaited (workers st)))
  /\ activeFiles final = [].
Proof.
  cbv zeta.
  pose proof (finished_invs opts env outDir ui statOrder uploadOrder files windowSize) as H.
  cbv zeta in H. destruct H as (HI & HI2 & Haw & _).
  rewrite (inv_tasks _ _ _ _ _ _ _ HI).
  assert (Hstep : forall st,
             PoolInv2 (tasks (sorted opts env outDir statOrder files))
               (safeWindowSize windowSize
                  (length (tasks (sorted opts env outDir statOrder files)))) st ->
             NoDup (activeFiles st)
             /\ incl (activeFiles st)
                  (awaitedNames (tasks (sorted opts env outDir statOrder files)) (workers st))
             /\ length (activeFiles st) <= length (awaited (workers st))).
  { intros st Hst. split; [exact (inv2_nodup _ _ _ Hst)|].
    split; [exact (inv2_incl _ _ _ Hst)|].
    pose proof (NoDup_incl_length (inv2_nodup _ _ _ Hst) (inv2_incl _ _ _ Hst)).
    pose proof (length_awaitedNames (tasks (sorted opts env outDir statOrder files))
                  (workers st)).
    lia. }
  split.
  - intros k. unfold stateAfter. destruct (k <=? length files).
    + destruct (partial_sort_facts opts env outDir statOrder files k) as (-> & -> & _).
      split; [constructor|]. split; [intros y []|cbn; lia].
    + apply Hstep.
      pose proof (draining_invs opts env outDir ui statOrder uploadOrder files windowSize
                    (k - length files)) as Hd.
      cbv zeta in Hd. tauto.
  - destruct (Hstep _ HI2) as (_ & _ & Hlen). rewrite Haw in Hlen.
    destruct (activeFiles _); [reflexivity|simpl in Hlen; lia].
Qed.

(** X5. In every run each task is handed to [uploadFileWithRetry] exactly
    once, and the uploads are started in the order of the task list,
    which is the order of the candidates whose [stat] succeeded. *)
Theorem uploads_started_in_task_order opts env outDir ui statOrder uploadOrder files windowSize :
  let final := finished opts env outDir ui statOrder uploadOrder files windowSize in
  handedOver (trace final) = tasks final
  /\ tasks final = tasksOf (map (candidateOf opts env outDir) files).
Proof.
  cbv zeta.
  pose proof (finished_invs opts env outDir ui statOrder uploadOrder files windowSize) as H.
  cbv zeta in H. destruct H as (HI & HI2 & _ & Hci).
  destruct (sorted_facts opts env outDir statOrder files) as (_ & Ht & _).
  rewrite (inv_tasks _ _ _ _ _ _ _ HI), (inv2_handed _ _ _ HI2).
  split; [now apply firstn_all2|exact Ht].
Qed.

(** X6. When the handler has run the batch, the counts of its summary,
    computed from the array of results, are the live counters of the run
    at its end: [failedCount] is [failed], the retry count is [retries],
    the uploaded bytes are [uploadedBytes], and the successes and the
    failures together are [completed]. *)
Theorem summary_agrees_with_counters opts env plugin statOrder uploadOrder files summary thrown :
  closeBundle opts env plugin statOrder uploadOrder files = Completed summary thrown ->
  let final := finished opts env (outDir plugin) (useInteractiveOutput plugin)
                 statOrder uploadOrder files (concurrency opts) in
  failedCount summary = failed final
  /\ retryCount summary = retries final
  /\ uploadedTotal summary = uploadedBytes final
  /\ successCount summary + failedCount summary = completed final.
Proof.
  intros H final.
  pose proof (finished_invs opts env (outDir plugin) (useInteractiveOutput plugin)
                statOrder uploadOrder files (concurrency opts)) as Hinv.
  cbv zeta in Hinv. fold final in Hinv. destruct Hinv as (HI & HI2 & _ & _).
  pose proof (finished_facts opts env (outDir plugin) (useInteractiveOutput plugin)
                statOrder uploadOrder files (concurrency opts)) as Hf.
  cbv zeta in Hf. fold final in Hf. destruct Hf as (_ & _ & _ & Hcompleted & _).
  pose proof (uploadFilesInBatches_length opts env (outDir plugin)
                (useInteractiveOutput plugin) statOrder uploadOrder files (concurrency opts))
    as Hlen.
  unfold closeBundle in H.
  destruct (negb (open opts) || negb (upload plugin) || buildFailed plugin
            || negb (resolvedConfig plugin)); [discriminate|].
  destruct (length files =? 0); [discriminate|].
  injection H as <- _.
  cbn [failedCount retryCount uploadedTotal successCount].
  unfold uploadFilesInBatches in *. fold final in Hlen |- *.
  pose proof (filter_split_length UploadResult.success (results final)) as Hsplit.
  rewrite (inv2_failed _ _ _ HI2), (inv2_retries _ _ _ HI2), (inv_bytes _ _ _ _ _ _ _ HI).
  repeat split; lia.
Qed.

Lemma summary_agrees_with_counters_witness :
  exists summary thrown,
    closeBundle Demo.options Demo.env Demo.plugin Demo.inOrder Demo.latestFirst Demo.files
    = Completed summary thrown
    /\ failedCount summary = 2
    /\ failed (finished Demo.options Demo.env "/dist" false Demo.inOrder Demo.latestFirst
                 Demo.files 2) = 2
    /\ retryCount summary =
       retries (finished Demo.options Demo.env "/dist" false Demo.inOrder Demo.latestFirst
                  Demo.files 2).
Proof.
  destruct (closeBundle Demo.options Demo.env Demo.plugin Demo.inOrder Demo.latestFirst
              Demo.files) as [| |summary thrown] eqn:Hrun;
    [vm_compute in Hrun; discriminate|vm_compute in Hrun; discriminate|].
  exists summary, thrown.
  destruct (summary_agrees_with_counters Demo.options Demo.env Demo.plugin Demo.inOrder
              Demo.latestFirst Demo.files summary thrown Hrun) as (Hfailed & Hretries & _).
  split; [reflexivity|]. split; [rewrite Hfailed; vm_compute; reflexivity|].
  split; [vm_compute; reflexivity|exact Hretries].
Defined.


(** * Further properties: the options and the hooks *)

Module PluginFacts.


(** The plugin variables after a sequence of hooks record what the hooks
    were. *)
Lemma callHooks_inv opts P hooks :
  forall before p,
    (upload p = true ->
     validateOptions opts = [] /\ open opts = true /\ exists base, In (config base) before) ->
    (buildFailed p = true <-> In (buildEnd true) before) ->
    (resolvedConfig p = true -> exists root out, In (configResolved root out) before) ->
    let p' := fold_left (callHook opts P) hooks p in
    (upload p' = true ->
     validateOptions opts = [] /\ open opts = true
     /\ exists base, In (config base) (before ++ hooks))
    /\ (buildFailed p' = true <-> In (buildEnd true) (before ++ hooks))
    /\ (resolvedConfig p' = true ->
        exists root out, In (configResolved root out) (before ++ hooks)).
Proof.
  induction hooks as [|h hooks IH]; intros before p Hu Hb Hr; cbv zeta.
  - rewrite app_nil_r. cbn. tauto.
  - cbn [fold_left].
    replace (before ++ h :: hooks) with ((before ++ [h]) ++ hooks)
      by (rewrite <- app_assoc; reflexivity).
    apply IH.
    + intros Hup.
      assert (Hold : upload p = true ->
                     validateOptions opts = [] /\ open opts = true
                     /\ exists base, In (config base) (before ++ [h])).
      { intros Hp. destruct (Hu Hp) as (Hv & Ho & base & Hin).
        split; [exact Hv|]. split; [exact Ho|]. exists base. apply in_or_app. now left. }
      destruct h as [[|]|base|root out]; cbn [callHook] in Hup; try (now apply Hold).
      destruct (open opts) eqn:Ho; [|now apply Hold].
      destruct (buildFailed p); [now apply Hold|]. cbn [negb orb] in Hup.
      destruct (validateOptions opts) eqn:Hv; [|now apply Hold].
      split; [reflexivity|]. split; [reflexivity|]. exists base. apply in_or_app.
      right. now left.
    + rewrite in_app_iff. cbn [In].
      destruct h as [[|]|base|root out]; cbn [callHook].
      * cbn. split; [intros _; right; now left|reflexivity].
      * rewrite Hb. split; [now left|]. intros [Hin|[Heq|[]]]; [exact Hin|discriminate].
      * assert (Hsame : buildFailed
                  (if negb (open opts) || buildFailed p then p
                   else match validateOptions opts with
                        | [] => {| upload := true; buildFailed := buildFailed p;
                                   resolvedConfig := resolvedConfig p; outDir := outDir p;
                                   useInteractiveOutput := useInteractiveOutput p |}
                        | _ :: _ => p
                        end) = buildFailed p).
        { destruct (negb (open opts) || buildFailed p); [reflexivity|].
          destruct (validateOptions opts); reflexivity. }
        rewrite Hsame, Hb. split; [now left|]. intros [Hin|[Heq|[]]]; [exact Hin|discriminate].
      * cbn. rewrite Hb. split; [now left|]. intros [Hin|[Heq|[]]]; [exact Hin|discriminate].
    + intros Hres.
      assert (Hold : resolvedConfig p = true ->
                     exists root out, In (configResolved root out) (before ++ [h])).
      { intros Hp. destruct (Hr Hp) as (root & out & Hin).
        exists root, out. apply in_or_app. now left. }
      destruct h as [[|]|base|root out]; cbn [callHook] in Hres; try (now apply Hold).
      * apply Hold. destruct (negb (open opts) || buildFailed p); [exact Hres|].
        destruct (validateOptions opts); exact Hres.
      * exists root, out. apply in_or_app. right. now left.
Qed.

End PluginFacts.

Import PluginFacts.


(** X9. Whatever hooks the build tool has called since the plugin was
    created, if the [closeBundle] handler goes past its gate then the
    options have passed [validateOptions] (so the concurrency and the
    number of attempts are at least 1 and the threshold is positive), the
    plugin is open, no [buildEnd] reported an error, and the [config] and
    [configResolved] hooks have been called. *)
Theorem engine_starts_only_when_valid opts env P cwd interactive hooks
    statOrder uploadOrder files :
  let p := fold_left (callHook opts P) hooks (created P cwd interactive) in
  closeBundle opts env p statOrder uploadOrder files <> NotStarted ->
  validateOptions opts = [] /\ open opts = true
  /\ 1 <= retryTimes opts /\ 1 <= concurrency opts /\ (0 < multipartThreshold opts)%Z
  /\ ~ In (buildEnd true) hooks
  /\ (exists base, In (config base) hooks)
  /\ (exists root out, In (configResolved root out) hooks).
Proof.
  intros p Hrun.
  pose proof (callHooks_inv opts P hooks [] (created P cwd interactive)) as H.
  cbv zeta in H. fold p in H. cbn [app] in H.
  destruct H as (Hu & Hb & Hr).
  { intros Hup. discriminate Hup. }
  { cbn. split; [discriminate|intros []]. }
  { intros Hres. discriminate Hres. }
  unfold closeBundle in Hrun.
  destruct (open opts) eqn:Ho; [|now contradiction Hrun].
  destruct (upload p) eqn:Hup; [|now contradiction Hrun].
  destruct (buildFailed p) eqn:Hbf; [now contradiction Hrun|].
  destruct (resolvedConfig p) eqn:Hres; [|now contradiction Hrun].
  destruct (Hu eq_refl) as (Hv & _ & Hconfig).
  destruct (RetryFacts.validateOptions_bounds opts Hv) as (H1 & H2 & H3).
  split; [exact Hv|]. split; [reflexivity|]. split; [exact H1|]. split; [exact H2|].
  split; [exact H3|]. split.
  - intros Hin. apply Hb in Hin. discriminate.
  - split; [exact Hconfig|exact (Hr eq_refl)].
Qed.

Lemma engine_starts_only_when_valid_witness :
  closeBundle Demo.options Demo.env
    (fold_left (callHook Demo.options Key.separatorsOnly)
       [config "/"; configResolved "" "dist"; buildEnd false]
       (created Key.separatorsOnly "" false))
    Demo.inOrder Demo.inOrder ["a.js"] <> NotStarted
  /\ validateOptions Demo.options = []
  /\ ~ In (buildEnd true) [config "/"; configResolved "" "dist"; buildEnd false].
Proof.
  assert (Hrun : closeBundle Demo.options Demo.env
            (fold_left (callHook Demo.options Key.separatorsOnly)
               [config "/"; configResolved "" "dist"; buildEnd false]
               (created Key.separatorsOnly "" false))
            Demo.inOrder Demo.inOrder ["a.js"] <> NotStarted)
    by (vm_compute; discriminate).
  split; [exact Hrun|].
  destruct (engine_starts_only_when_valid Demo.options Demo.env Key.separatorsOnly ""
              false [config "/"; configResolved "" "dist"; buildEnd false]
              Demo.inOrder Demo.inOrder ["a.js"] Hrun) as (Hv & _ & _ & _ & _ & Hb & _).
  split; [exact Hv|exact Hb].
Defined.

(** * Further properties: trimMiddle and the progress lines *)

Module TextFacts.

Lemma length_append (s t : string) :
  String.length (s ++ t)%string = String.length s + String.length t.
Proof. induction s as [|c s IH]; simpl; [reflexivity|now rewrite IH]. Qed.

Lemma length_substring k n s :
  String.length (substring k n s) = Nat.min n (String.length s - k).
Proof.
  revert k n. induction s as [|c s IH]; intros k n.
  - destruct k, n; reflexivity.
  - destruct k as [|k].
    + destruct n as [|n]; [reflexivity|]. simpl. rewrite IH. simpl. now rewrite Nat.sub_0_r.
    + simpl. apply IH.
Qed.

(** A prefix and a suffix of a text, as the text cut in two. *)
Lemma sliceTo_prefix n s : exists rest, s = (sliceTo n s ++ rest)%string.
Proof.
  unfold sliceTo. revert n. induction s as [|c s IH]; intros [|n].
  - exists "". reflexivity.
  - exists "". reflexivity.
  - exists (String c s). reflexivity.
  - destruct (IH n) as [rest Hrest]. exists rest. simpl. now rewrite <- Hrest.
Qed.

Lemma substring_suffix k n s :
  String.length s <= k + n -> exists front, s = (front ++ substring k n s)%string.
Proof.
  revert k n. induction s as [|c s IH]; intros k n Hlen.
  - exists "". destruct k, n; reflexivity.
  - destruct k as [|k].
    + exists "". simpl. destruct n as [|n]; [simpl in Hlen; lia|].
      simpl. f_equal.
      destruct (IH 0 n) as [front Hfront]; [simpl in *; lia|].
      assert (Hl := f_equal String.length Hfront).
      rewrite length_append, length_substring in Hl.
      assert (front = "") as -> by (destruct front; [reflexivity|simpl in *; lia]).
      exact Hfront.
    + destruct (IH k n) as [front Hfront]; [simpl in *; lia|].
      exists (String c front). simpl. now rewrite <- Hfront.
Qed.

Lemma substring_skip_prefix (pre rest : string) k n :
  substring (String.length pre + k) n (pre ++ rest) = substring k n rest.
Proof. induction pre as [|c pre IH]; [reflexivity|]. simpl. exact IH. Qed.

Lemma sliceLast_suffix n s : exists front, s = (front ++ sliceLast n s)%string.
Proof.
  unfold sliceLast. destruct (n =? 0); [exists ""; reflexivity|].
  apply substring_suffix. lia.
Qed.

(** A strictly increasing list of numbers between [a] and [b] has at
    most [b - a] elements. *)
Lemma increasing_length l :
  forall a b, Forall (fun v => a <= v < b) l -> StronglySorted lt l -> length l <= b - a.
Proof.
  induction l as [|x l IH]; intros a b Hall Hsorted; [simpl; lia|].
  inversion Hall as [|? ? Hx Hl]; subst. inversion Hsorted as [|? ? Hs Hgt]; subst.
  assert (Hl' : Forall (fun v => S x <= v < b) l).
  { rewrite Forall_forall in *. intros v Hv. specialize (Hl v Hv). specialize (Hgt v Hv). lia. }
  specialize (IH (S x) b Hl' Hs). simpl. lia.
Qed.

Lemma reportEvery_covers totalFiles : totalFiles <= 10 * reportEvery totalFiles.
Proof.
  unfold reportEvery.
  pose proof (Nat.div_mod_eq (totalFiles + 9) 10) as Hdiv.
  pose proof (Nat.mod_upper_bound (totalFiles + 9) 10). lia.
Qed.

End TextFacts.

Import TextFacts.

(** X10. [trimMiddle(text, maxLength)] never returns more than
    [maxLength] characters: its result has [min(text.length, maxLength)]
    of them. A text that fits is returned as it is; a longer one, when
    [maxLength > 10], becomes a beginning of the text, three dots and an
    end of the text; and trimming a second time changes nothing. *)
Theorem trimMiddle_length text maxLength :
  String.length (trimMiddle text maxLength) = Nat.min (String.length text) maxLength
  /\ (String.length text <= maxLength -> trimMiddle text maxLength = text)
  /\ (maxLength < String.length text -> 10 < maxLength ->
      exists first middle last,
        text = (first ++ middle ++ last)%string
        /\ trimMiddle text maxLength = (first ++ "..." ++ last)%string
        /\ String.length first = (maxLength - 3) / 2
        /\ String.length first + 3 + String.length last = maxLength)
  /\ trimMiddle (trimMiddle text maxLength) maxLength = trimMiddle text maxLength.
Proof.
  assert (Hlen : String.length (trimMiddle text maxLength)
                 = Nat.min (String.length text) maxLength).
  { unfold trimMiddle.
    destruct (Nat.leb_spec (String.length text) maxLength) as [Hfit|Hlong]; [lia|].
    destruct (Nat.leb_spec maxLength 10) as [Hsmall|Hbig].
    - unfold sliceTo. rewrite length_substring. lia.
    - cbv zeta. unfold sliceTo, sliceLast.
      pose proof (Nat.div_mod_eq (maxLength - 3) 2) as Hdiv.
      pose proof (Nat.mod_upper_bound (maxLength - 3) 2).
      destruct (Nat.eqb_spec (maxLength - 3 - (maxLength - 3) / 2) 0) as [Hz|Hnz]; [lia|].
      rewrite !length_append, !length_substring. simpl String.length. lia. }
  assert (Hfit : forall t, String.length t <= maxLength -> trimMiddle t maxLength = t).
  { intros t H. unfold trimMiddle.
    destruct (Nat.leb_spec (String.length t) maxLength); [reflexivity|lia]. }
  split; [exact Hlen|]. split; [apply Hfit|]. split.
  - intros Hlong Hbig. unfold trimMiddle.
    destruct (Nat.leb_spec (String.length text) maxLength); [lia|].
    destruct (Nat.leb_spec maxLength 10); [lia|]. cbv zeta.
    pose proof (Nat.div_mod_eq (maxLength - 3) 2) as Hdiv.
    pose proof (Nat.mod_upper_bound (maxLength - 3) 2).
    set (leftLength := (maxLength - 3) / 2) in *.
    set (rightLength := maxLength - 3 - leftLength) in *.
    destruct (sliceTo_prefix leftLength text) as [rest Hrest].
    assert (Hl1 : String.length (sliceTo leftLength text) = leftLength)
      by (unfold sliceTo; rewrite length_substring; lia).
    remember (sliceTo leftLength text) as pre eqn:Hpre. clear Hpre.
    subst text. rewrite length_append in *.
    assert (Hsame : sliceLast rightLength (pre ++ rest) = sliceLast rightLength rest).
    { unfold sliceLast. destruct (Nat.eqb_spec rightLength 0); [lia|].
      rewrite length_append.
      replace (String.length pre + String.length rest - rightLength)
        with (String.length pre + (String.length rest - rightLength)) by lia.
      apply substring_skip_prefix. }
    assert (Hl2 : String.length (sliceLast rightLength rest) = rightLength).
    { unfold sliceLast. destruct (Nat.eqb_spec rightLength 0); [lia|].
      rewrite length_substring. lia. }
    destruct (sliceLast_suffix rightLength rest) as [middle Hmiddle].
    exists pre, middle, (sliceLast rightLength rest).
    split; [now rewrite <- Hmiddle|].
    split; [now rewrite Hsame|]. split; [exact Hl1|]. rewrite Hl1, Hl2. lia.
  - apply Hfit. rewrite Hlen. lia.
Qed.


Module ProgressFacts.
Import TextFacts.

Section Lines.
Variable totalFiles : nat.

Local Abbreviation every := (reportEvery totalFiles).
Local Abbreviation due := (due totalFiles).
Local Abbreviation rank := (rank totalFiles).
Local Abbreviation Consistent := (Consistent totalFiles).

Lemma every_pos : 1 <= every.
Proof. unfold reportEvery. lia. Qed.

Lemma rank_increasing x y :
  x < y -> y <= totalFiles -> due x -> due y -> rank x < rank y.
Proof.
  intros Hxy Hy Hx Hdy. unfold rank. pose proof every_pos as He.
  destruct (Nat.eqb_spec x totalFiles) as [->|Hxn]; [lia|].
  destruct Hx as [Hx|Hx]; [contradiction|].
  destruct (Nat.eqb_spec y totalFiles) as [->|Hyn].
  - assert (x / every <= (totalFiles - 1) / every)
      by (apply Nat.Div0.div_le_mono; lia).
    lia.
  - destruct Hdy as [Hdy|Hdy]; [contradiction|].
    pose proof (Nat.div_mod_eq x every) as Ex. pose proof (Nat.div_mod_eq y every) as Ey.
    rewrite Hx in Ex. rewrite Hdy in Ey. nia.
Qed.

Lemma rank_bound v : v <= totalFiles -> rank v < 11.
Proof.
  intros Hv. unfold rank. pose proof every_pos as He.
  pose proof (reportEvery_covers totalFiles) as Hcov.
  assert (Hlast : (totalFiles - 1) / every < 10)
    by (apply Nat.Div0.div_lt_upper_bound; lia).
  destruct (Nat.eqb_spec v totalFiles) as [->|Hne]; [lia|].
  assert (v / every <= (totalFiles - 1) / every) by (apply Nat.Div0.div_le_mono; lia).
  lia.
Qed.

(** At most eleven values can be logged. *)
Lemma due_values_bounded l :
  StronglySorted lt l -> Forall (fun v => v <= totalFiles /\ due v) l -> length l <= 11.
Proof.
  intros Hsorted Hall.
  assert (Hmap : StronglySorted lt (map rank l)).
  { induction Hsorted as [|x l Hl IH Hx]; [constructor|].
    inversion Hall as [|? ? [Hxb Hxd] Hall']; subst. cbn [map].
    constructor; [now apply IH|].
    apply Forall_forall. intros r Hr. apply in_map_iff in Hr. destruct Hr as [y [<- Hy]].
    rewrite Forall_forall in Hx, Hall'. destruct (Hall' y Hy) as [Hyb Hyd].
    apply rank_increasing; auto. }
  assert (Hbound : Forall (fun r => 0 <= r < 11) (map rank l)).
  { apply Forall_forall. intros r Hr. apply in_map_iff in Hr. destruct Hr as [y [<- Hy]].
    rewrite Forall_forall in Hall. destruct (Hall y Hy) as [Hyb _].
    pose proof (rank_bound y Hyb). lia. }
  pose proof (increasing_length _ 0 11 Hbound Hmap) as H.
  rewrite length_map in H. lia.
Qed.

Lemma updateProgress_step rep u :
  Consistent rep -> (lastReportedCompleted rep <= Z.of_nat u)%Z ->
  let rep' := updateProgress totalFiles rep u in
  Consistent rep'
  /\ (lastReportedCompleted rep' <= Z.of_nat u)%Z
  /\ (forall v, In v (reported rep') -> In v (reported rep) \/ v = u)
  /\ (forall v, In v (reported rep) -> In v (reported rep'))
  /\ (u = totalFiles -> In totalFiles (reported rep')).
Proof.
  intros HC Hle. pose proof HC as [Hs Hd Hb Hl]. cbv zeta. unfold updateProgress.
  destruct (Z.eqb_spec (Z.of_nat u) (lastReportedCompleted rep)) as [Heq|Hne].
  - split; [exact HC|]. split; [exact Hle|]. split; [now left|]. split; [auto|].
    intros ->. destruct Hl as [Hl|[_ Hl]]; [lia|].
    now rewrite <- Heq, Nat2Z.id in Hl.
  - destruct ((u =? totalFiles) || (u mod every =? 0)) eqn:Hdue.
    + cbn [reported lastReportedCompleted]. split; [constructor; cbn [reported lastReportedCompleted]|].
      * clear -Hs Hb Hle Hne. induction (reported rep) as [|x l IH].
        -- repeat constructor.
        -- inversion Hs as [|? ? Hsl Hx]; subst. cbn [app]. constructor.
           ++ apply IH; [exact Hsl|]. intros v Hv. apply Hb. now right.
           ++ apply Forall_app. split; [exact Hx|]. constructor; [|constructor].
              specialize (Hb x (or_introl eq_refl)). lia.
      * apply Forall_app. split; [exact Hd|]. constructor; [|constructor].
        apply orb_prop in Hdue. destruct Hdue as [E|E]; apply Nat.eqb_eq in E;
          [now left|now right].
      * intros v Hv. apply in_app_or in Hv. destruct Hv as [Hv|[<-|[]]]; [|lia].
        specialize (Hb v Hv). lia.
      * right. split; [lia|]. rewrite Nat2Z.id. apply in_or_app. right. now left.
      * split; [lia|]. split.
        -- intros v Hv. apply in_app_or in Hv. destruct Hv as [Hv|[<-|[]]]; auto.
        -- split; [intros v Hv; apply in_or_app; now left|].
           intros Hu. apply in_or_app. right. left. exact Hu.
    + split; [exact HC|]. split; [exact Hle|]. split; [now left|]. split; [auto|].
      intros ->. rewrite Nat.eqb_refl in Hdue. discriminate.
Qed.

Lemma updateProgress_run ups :
  forall rep,
    Consistent rep -> StronglySorted le ups ->
    (forall u, In u ups -> (lastReportedCompleted rep <= Z.of_nat u)%Z) ->
    let rep' := fold_left (updateProgress totalFiles) ups rep in
    Consistent rep'
    /\ (forall v, In v (reported rep') -> In v (reported rep) \/ In v ups)
    /\ (forall v, In v (reported rep) -> In v (reported rep'))
    /\ (In totalFiles ups -> In totalFiles (reported rep')).
Proof.
  induction ups as [|u ups IH]; intros rep Hc Hs Hle; cbv zeta.
  - cbn. split; [exact Hc|]. split; [now left|]. split; [auto|intros []].
  - cbn [fold_left]. inversion Hs as [|? ? Hs' Hu]; subst.
    pose proof (updateProgress_step rep u Hc (Hle u (or_introl eq_refl))) as Hstep.
    cbv zeta in Hstep. destruct Hstep as (Hc1 & Hle1 & Hnew & Hkeep & Hfinal).
    pose proof (IH (updateProgress totalFiles rep u) Hc1 Hs') as H. cbv zeta in H.
    destruct H as (Hc2 & Hnew2 & Hkeep2 & Hfinal2).
    { intros v Hv. rewrite Forall_forall in Hu. specialize (Hu v Hv). lia. }
    split; [exact Hc2|]. split.
    + intros v Hv. destruct (Hnew2 v Hv) as [Hv'|Hv']; [|right; now right].
      destruct (Hnew v Hv') as [Hv''|Hvu]; [now left|right; left; now symmetry].
    + split; [intros v Hv; apply Hkeep2, Hkeep, Hv|].
      intros [Hu'|Hin]; [apply Hkeep2, Hfinal; exact Hu'|now apply Hfinal2].
Qed.

End Lines.

End ProgressFacts.

Import ProgressFacts.

(** X11. Without a spinner, whatever the number of files, a run logs at
    most eleven progress lines: over any calls of [updateProgress] in
    which [completed] does not decrease and stays within [totalFiles],
    the values logged increase strictly, each is [totalFiles] or a
    multiple of [reportEvery], and once [completed] has reached
    [totalFiles] the line for it has been logged. *)
Theorem progress_lines_bounded totalFiles (updates : list nat) :
  StronglySorted le updates ->
  Forall (fun completed => completed <= totalFiles) updates ->
  let r := fold_left (updateProgress totalFiles) updates reporterStart in
  StronglySorted lt (reported r)
  /\ Forall (fun v => v = totalFiles \/ v mod reportEvery totalFiles = 0) (reported r)
  /\ incl (reported r) updates
  /\ length (reported r) <= 11
  /\ (In totalFiles updates -> In totalFiles (reported r)).
Proof.
  intros Hsorted Hbound r.
  assert (Hstart : Consistent totalFiles reporterStart).
  { constructor; cbn; [constructor|constructor|intros v []|now left]. }
  pose proof (updateProgress_run totalFiles updates reporterStart Hstart Hsorted) as H.
  cbv zeta in H. fold r in H.
  destruct H as ([Hs Hd Hb Hl] & Hnew & _ & Hfinal); [cbn; intros; lia|].
  assert (Hincl : incl (reported r) updates).
  { intros v Hv. destruct (Hnew v Hv) as [[]|Hin]. exact Hin. }
  split; [exact Hs|]. split; [exact Hd|]. split; [exact Hincl|]. split; [|exact Hfinal].
  apply (due_values_bounded totalFiles); [exact Hs|].
  apply Forall_forall. intros v Hv. split.
  - rewrite Forall_forall in Hbound. apply Hbound, Hincl, Hv.
  - rewrite Forall_forall in Hd. exact (Hd v Hv).
Qed.

Lemma progress_lines_bounded_witness :
  StronglySorted le [0; 0; 1; 2; 2; 3; 25; 25]
  /\ Forall (fun completed => completed <= 25) [0; 0; 1; 2; 2; 3; 25; 25]
  /\ reported (fold_left (updateProgress 25) [0; 0; 1; 2; 2; 3; 25; 25] reporterStart)
     = [0; 3; 25]
  /\ length (reported (fold_left (updateProgress 25) [0; 0; 1; 2; 2; 3; 25; 25]
                         reporterStart)) <= 11.
Proof.
  assert (Hs : StronglySorted le [0; 0; 1; 2; 2; 3; 25; 25])
    by (repeat (constructor; [|repeat (constructor; try lia)]); constructor).
  assert (Hb : Forall (fun completed => completed <= 25) [0; 0; 1; 2; 2; 3; 25; 25])
    by (repeat (constructor; [lia|]); constructor).
  destruct (progress_lines_bounded 25 [0; 0; 1; 2; 2; 3; 25; 25] Hs Hb)
    as (_ & _ & _ & Hlen & _).
  split; [exact Hs|]. split; [exact Hb|]. split; [vm_compute; reflexivity|exact Hlen].
Defined.

(** * Further properties: the pool of the revision before the last *)

Module Rev4Facts.
Import PoolFacts BatchFacts.
Import Rev4.

Lemma store_length {A} i (x : A) l : i < length l -> length (store i x l) = length l.
Proof.
  revert i. induction l as [|y l IH]; intros i Hi; [simpl in Hi; lia|].
  destruct i as [|i]; cbn [store length]; [reflexivity|].
  simpl in Hi. rewrite IH by lia. reflexivity.
Qed.

Lemma store_same {A} i (x : A) l : i < length l -> nth_error (store i x l) i = Some (Some x).
Proof.
  revert i. induction l as [|y l IH]; intros i Hi; [simpl in Hi; lia|].
  destruct i as [|i]; cbn [store nth_error]; [reflexivity|].
  simpl in Hi. apply IH. lia.
Qed.

Lemma store_other {A} i j (x : A) l :
  i < length l -> j <> i -> nth_error (store i x l) j = nth_error l j.
Proof.
  revert i j. induction l as [|y l IH]; intros i j Hi Hne; [simpl in Hi; lia|].
  destruct i as [|i], j as [|j]; cbn [store nth_error]; try reflexivity; try lia.
  simpl in Hi. apply IH; lia.
Qed.

Ltac fields4 :=
  cbn [Rev4.results Rev4.completed Rev4.activeFile Rev4.currentIndex Rev4.workers].

Section Pool4.
Variable opts : Options.
Variable env : Env.
Variable outDir : string.
Variable spinner : bool.
Variable files : list string.

Local Abbreviation Inv := (Rev4.PoolInv opts env outDir files).
Local Abbreviation resultOf := (Rev4.resultOf opts env outDir).

Lemma claim4_cases st st' wk :
  claim opts env spinner files st = (st', wk) ->
  Rev4.results st' = Rev4.results st /\ Rev4.completed st' = Rev4.completed st
  /\ Rev4.workers st' = Rev4.workers st
  /\ Rev4.currentIndex st' = S (Rev4.currentIndex st)
  /\ ((wk = Exited /\ length files <= Rev4.currentIndex st)
      \/ (wk = Awaiting (Rev4.currentIndex st) /\ Rev4.currentIndex st < length files)).
Proof.
  unfold claim. destruct (nth_error files (Rev4.currentIndex st)) as [file|] eqn:E;
    intros H; injection H as <- <-; fields4; repeat split; try reflexivity.
  - right. split; [reflexivity|]. apply nth_error_Some. congruence.
  - left. split; [reflexivity|]. now apply nth_error_None.
Qed.

(** The invariant across the end of one upload and the claim that
    follows: [others] are the indices the other workers wait for. *)
Lemma step_inv4 (rs : list (option Rev4.UploadResult)) c af ci wk others (ws' : list Worker) :
  length rs = length files ->
  NoDup others ->
  (forall i, In i others -> i < ci /\ i < length files /\ nth_error rs i = Some None) ->
  (forall i, ci <= i -> i < length files -> nth_error rs i = Some None) ->
  (forall i file, i < ci -> ~ In i others -> nth_error files i = Some file ->
                  nth_error rs i = Some (Some (resultOf file))) ->
  c + length others = Nat.min ci (length files) ->
  ((wk = Exited /\ length files <= ci) \/ (wk = Awaiting ci /\ ci < length files)) ->
  Permutation (awaited ws') (others ++ awaited [wk]) ->
  (In Exited ws' -> length files <= S ci) ->
  Inv {| Rev4.results := rs; Rev4.completed := c; Rev4.activeFile := af;
         Rev4.currentIndex := S ci; Rev4.workers := ws' |}.
Proof.
  intros Hlen Hnd Hpend Hun Hst Hc Hwk Hperm Hex.
  assert (Hin : forall i, In i (awaited ws') <-> In i others \/ In i (awaited [wk])).
  { intros i. rewrite <- in_app_iff. split; apply Permutation_in;
      [exact Hperm|now apply Permutation_sym]. }
  constructor; fields4.
  - exact Hlen.
  - apply (Permutation_NoDup (Permutation_sym Hperm)).
    destruct Hwk as [[-> _]|[-> Hlt]]; cbn [awaited flat_map app].
    + now rewrite app_nil_r.
    + apply NoDup_app; [exact Hnd|repeat constructor; intros []|].
      intros i Hi [<-|[]]. destruct (Hpend _ Hi). lia.
  - intros i Hi. apply Hin in Hi. destruct Hi as [Hi|Hi].
    + destruct (Hpend i Hi) as (H1 & H2 & H3). repeat split; auto.
    + destruct Hwk as [[-> _]|[-> Hlt]]; cbn [awaited flat_map app] in Hi; [destruct Hi|].
      destruct Hi as [<-|[]]. repeat split; auto.
  - intros i Hi Hn. apply Hun; lia.
  - intros i file Hi Hnot Hfile.
    assert (Hno : ~ In i others) by (intros Hi'; apply Hnot, Hin; now left).
    assert (i < length files) by (apply nth_error_Some; congruence).
    destruct (Nat.eq_dec i ci) as [->|Hne].
    + exfalso. destruct Hwk as [[-> Hle]|[-> Hlt]]; [lia|].
      apply Hnot, Hin. right. now left.
    + apply Hst; auto. lia.
  - rewrite (Permutation_length Hperm), length_app.
    destruct Hwk as [[-> Hle]|[-> Hlt]]; cbn [awaited flat_map app length]; lia.
  - exact Hex.
Qed.

Lemma initial_inv4 : Inv (initial files).
Proof.
  constructor; unfold initial; fields4; cbn [awaited flat_map length].
  - apply repeat_length.
  - constructor.
  - intros i [].
  - intros i _ Hi. rewrite nth_error_repeat by exact Hi. reflexivity.
  - intros i file Hi. lia.
  - simpl. lia.
  - intros [].
Qed.

Lemma spawn_inv4 st : Inv st -> Inv (spawn opts env spinner files st).
Proof.
  intros HI. unfold spawn.
  destruct (claim opts env spinner files st) as [st' wk] eqn:E.
  destruct (claim4_cases _ _ _ E) as (Hr & Hc & Hw & Hci & Hwk).
  rewrite Hr, Hc, Hw, Hci.
  apply step_inv4 with (wk := wk) (others := awaited (workers st)).
  - apply HI.
  - apply HI.
  - apply HI.
  - apply HI.
  - apply HI.
  - apply HI.
  - exact Hwk.
  - rewrite awaited_app. apply Permutation_refl.
  - intros Hin. apply in_app_iff in Hin. destruct Hin as [Hin|[Heq|[]]].
    + pose proof (inv_exited _ _ _ _ _ HI Hin). lia.
    + destruct Hwk as [[_ Hle]|[Hwk _]]; [lia|congruence].
Qed.

Lemma spawn_workers4 st :
  length (workers (spawn opts env spinner files st)) = S (length (workers st)).
Proof.
  unfold spawn. destruct (claim opts env spinner files st) as [st' wk] eqn:E.
  destruct (claim4_cases _ _ _ E) as (_ & _ & Hw & _). fields4.
  rewrite length_app, Hw. simpl. lia.
Qed.

Lemma spawn_iter_inv4 n st :
  Inv st ->
  Inv (Nat.iter n (spawn opts env spinner files) st)
  /\ length (workers (Nat.iter n (spawn opts env spinner files) st)) = n + length (workers st).
Proof.
  intros HI. induction n as [|n [IH1 IH2]]; [split; [exact HI|reflexivity]|].
  change (Nat.iter (S n) (spawn opts env spinner files) st)
    with (spawn opts env spinner files (Nat.iter n (spawn opts env spinner files) st)).
  split; [now apply spawn_inv4|]. rewrite spawn_workers4, IH2. reflexivity.
Qed.

Lemma resume_inv4 st w index :
  Inv st -> nth_error (workers st) w = Some (Awaiting index) ->
  exists st', resume opts env outDir spinner files w st = Some st'
              /\ Inv st'
              /\ completed st' = S (completed st)
              /\ length (workers st') = length (workers st).
Proof.
  intros HI Hw.
  destruct (setWorker_split _ _ _ Exited Hw) as (l1 & l2 & Hws & _).
  assert (Hin : In index (awaited (workers st))).
  { rewrite Hws, awaited_app. apply in_or_app. right. now left. }
  destruct (inv_pending _ _ _ _ _ HI index Hin) as (Hci & Hlt & Hnone).
  destruct (nth_error files index) as [file|] eqn:Hfile;
    [|apply nth_error_None in Hfile; lia].
  unfold resume. rewrite Hw, Hfile.
  match goal with |- context [claim opts env spinner files ?s] =>
    destruct (claim opts env spinner files s) as [st' wk] eqn:E end.
  destruct (claim4_cases _ _ _ E) as (Hr & Hc & Hw' & Hci' & Hwk).
  cbn [results completed activeFile currentIndex workers] in Hr, Hc, Hw', Hci', Hwk.
  eexists. split; [reflexivity|]. fields4.
  rewrite Hr, Hc, Hw', Hci'.
  destruct (setWorker_split _ _ _ wk Hw) as (k1 & k2 & Hws' & Hset).
  rewrite Hset.
  pose proof (inv_nodup _ _ _ _ _ HI) as Hnd.
  pose proof (inv_completed _ _ _ _ _ HI) as Hcount.
  pose proof (inv_length _ _ _ _ _ HI) as Hlen.
  rewrite Hws', awaited_app in Hnd, Hcount. cbn [awaited flat_map app] in Hnd, Hcount.
  change (flat_map (fun w0 => match w0 with Awaiting i => [i] | Exited => [] end) k2)
    with (awaited k2) in Hnd, Hcount.
  apply NoDup_remove in Hnd. destruct Hnd as [Hnd Hnotin].
  assert (Hold : forall i, In i (awaited k1 ++ awaited k2) ->
                           i <> index /\ In i (awaited (workers st))).
  { intros i Hi. split; [intros ->; now apply Hnotin|].
    rewrite Hws', awaited_app. cbn [awaited flat_map app].
    apply in_app_iff in Hi. apply in_or_app. destruct Hi; [now left|right; now right]. }
  assert (Hother : forall i, i <> index ->
            nth_error (store index (resultOf file) (results st)) i = nth_error (results st) i).
  { intros i Hne. apply store_other; [lia|exact Hne]. }
  split; [|split; [reflexivity|]].
  - apply step_inv4 with (wk := wk) (others := awaited k1 ++ awaited k2).
    + rewrite store_length by lia. exact Hlen.
    + exact Hnd.
    + intros i Hi. destruct (Hold i Hi) as [Hne Hi'].
      destruct (inv_pending _ _ _ _ _ HI i Hi') as (H1 & H2 & H3).
      rewrite Hother by exact Hne. auto.
    + intros i Hi Hn. rewrite Hother by lia. now apply (inv_unclaimed _ _ _ _ _ HI).
    + intros i f Hi Hnot Hf.
      destruct (Nat.eq_dec i index) as [->|Hne].
      * rewrite store_same by lia. congruence.
      * rewrite Hother by exact Hne. apply (inv_stored _ _ _ _ _ HI); auto.
        rewrite Hws', awaited_app. cbn [awaited flat_map app].
        intros Hi'. apply in_app_iff in Hi'. destruct Hi' as [Hi'|[Hi'|Hi']].
        -- apply Hnot, in_or_app. now left.
        -- congruence.
        -- apply Hnot, in_or_app. now right.
    + rewrite length_app in *. cbn [length] in Hcount. lia.
    + exact Hwk.
    + rewrite awaited_app. cbn [awaited flat_map app].
      change (flat_map (fun w0 => match w0 with Awaiting i => [i] | Exited => [] end) k2)
        with (awaited k2).
      rewrite app_nil_r.
      destruct wk as [i|]; cbn [app].
      * rewrite <- app_assoc. apply Permutation_app_head.
        change (Permutation ([i] ++ awaited k2) (awaited k2 ++ [i])).
        apply Permutation_app_comm.
      * rewrite app_nil_r. apply Permutation_refl.
    + intros Hex. destruct Hwk as [[_ Hle]|[-> Hlt']]; [lia|].
      assert (In Exited (workers st)).
      { rewrite Hws'. apply in_app_iff in Hex. apply in_or_app.
        destruct Hex as [Hex|[Hex|Hex]]; [now left|discriminate|right; now right]. }
      pose proof (inv_exited _ _ _ _ _ HI H). lia.
  - rewrite Hws', !length_app. reflexivity.
Qed.

Lemma drain_inv4 uploadOrder fuel step st :
  Inv st -> length files <= completed st + fuel ->
  Inv (drain opts env outDir spinner files uploadOrder fuel step st)
  /\ inflight (workers (drain opts env outDir spinner files uploadOrder fuel step st)) = []
  /\ length (workers (drain opts env outDir spinner files uploadOrder fuel step st))
     = length (workers st).
Proof.
  revert step st. induction fuel as [|fuel IH]; intros step st HI Hfuel.
  - cbn [drain]. split; [exact HI|]. split; [|reflexivity].
    apply awaited_nil_inflight.
    pose proof (inv_completed _ _ _ _ _ HI).
    destruct (awaited (workers st)); [reflexivity|simpl in *; lia].
  - cbn [drain]. destruct (inflight (workers st)) as [|first rest] eqn:E.
    + split; [exact HI|]. split; [exact E|reflexivity].
    + rewrite <- E.
      assert (Hin : In (choose uploadOrder step first (inflight (workers st)))
                       (inflight (workers st))).
      { apply choose_In. rewrite E. discriminate. }
      destruct (inflight_awaiting _ _ Hin) as [index Hw].
      destruct (resume_inv4 _ _ _ HI Hw) as (st' & -> & HI' & Hc & Hl).
      destruct (IH (S step) st' HI') as (H1 & H2 & H3); [lia|].
      split; [exact H1|]. split; [exact H2|]. now rewrite H3.
Qed.

Lemma finished_inv4 uploadOrder windowSize :
  Inv (finished opts env outDir spinner files uploadOrder windowSize)
  /\ awaited (workers (finished opts env outDir spinner files uploadOrder windowSize)) = []
  /\ length files <= currentIndex (finished opts env outDir spinner files uploadOrder windowSize).
Proof.
  unfold finished.
  destruct (spawn_iter_inv4 (safeWindowSize files windowSize) _ initial_inv4) as [HI Hl].
  destruct (drain_inv4 uploadOrder (length files) 0 _ HI) as (HI' & Hin & Hl'); [lia|].
  split; [exact HI'|].
  pose proof (inflight_nil_awaited _ Hin) as Haw.
  split; [exact Haw|].
  apply (inv_exited _ _ _ _ _ HI').
  pose proof (awaited_nil_exited _ Haw) as Hall.
  destruct (workers (drain opts env outDir spinner files uploadOrder (length files) 0
                       (Nat.iter (safeWindowSize files windowSize)
                          (spawn opts env spinner files) (initial files)))) as [|wk ws].
  - simpl in Hl'. rewrite Hl in Hl'. unfold safeWindowSize in Hl'. lia.
  - inversion Hall; subst. now left.
Qed.

End Pool4.

End Rev4Facts.

(** X12. In the revision before the last, whatever the order in which
    the uploads settle and whatever the window size, the array that
    [uploadFilesInBatches] returns has one element for every file and no
    hole, the element at an index is the result of the upload of the
    file at that index, so that its [file] is the path of that file, and
    [completed] has reached the number of files. *)
Theorem rev4_results_in_file_order (opts : Options) (env : Env) (outDir : string)
    (spinner : bool) (files : list string) (uploadOrder : Schedule) (windowSize : nat) :
  Rev4.uploadFilesInBatches opts env outDir spinner files uploadOrder windowSize
    = map (fun file => Some (Rev4.resultOf opts env outDir file)) files
  /\ map (option_map Rev4.file)
         (Rev4.uploadFilesInBatches opts env outDir spinner files uploadOrder windowSize)
     = map (fun file => Some (Rev4.filePathOf env outDir file)) files
  /\ Rev4.completed (Rev4.finished opts env outDir spinner files uploadOrder windowSize)
     = length files.
Proof.
  destruct (Rev4Facts.finished_inv4 opts env outDir spinner files uploadOrder windowSize)
    as (HI & Haw & Hci).
  assert (Hres : Rev4.uploadFilesInBatches opts env outDir spinner files uploadOrder windowSize
                 = map (fun file => Some (Rev4.resultOf opts env outDir file)) files).
  { unfold Rev4.uploadFilesInBatches. apply nth_error_ext. intros i.
    rewrite nth_error_map.
    destruct (nth_error files i) as [file|] eqn:Hfile; cbn [option_map].
    - apply (Rev4.inv_stored _ _ _ _ _ HI).
      + assert (i < length files) by (apply nth_error_Some; congruence). lia.
      + rewrite Haw. intros [].
      + exact Hfile.
    - apply nth_error_None. rewrite (Rev4.inv_length _ _ _ _ _ HI).
      now apply nth_error_None. }
  split; [exact Hres|]. split.
  - rewrite Hres, map_map. apply map_ext. intros file. cbn [option_map].
    unfold Rev4.resultOf, Rev4.uploadFileWithRetry.
    destruct (stat env (Rev4.filePathOf env outDir file)); reflexivity.
  - pose proof (Rev4.inv_completed _ _ _ _ _ HI) as Hc. rewrite Haw in Hc.
    simpl in Hc. lia.
Qed.
